(** * The playback controller of src/app/index.tsx

    The component [App] keeps its controller state in React state variables
    and changes it only through their setters; it talks to the playback
    engine (expo-av) through asynchronous calls that may reject.  A handler
    is embedded as a function from the values of the state variables it has
    in scope (the argument [r]) to a _script_: the ordered trace of setter
    calls, engine calls and console reports it performs, together with its
    outcome (returned or thrown).  The engine's answers to the calls of one
    handler invocation are an explicit argument.  Committing a trace to a
    state applies its setters in order.

    The controller as a machine ([step], [run]) runs one operation to
    completion before the next and gives each handler the current state to
    read: that is the handler of a button of the latest render.  The status
    callback is different: [createAsync] is given the callback of the render
    that called [playAudio], and it is never registered again, so it keeps
    that render's values.  [stepIn] and [runIn] let each handler read the
    values of the render it belongs to; what is said of status events is
    said there, or of the handler with its closure explicit.  Positions and
    durations are milliseconds; the code only copies them, and they are
    integers here.

    Beside the controller: the time labels ([formatTime]), the start-up
    effect with the enumeration of the library ([Startup]) and what the
    component renders ([render]). *)

From Stdlib Require Import ZArith List String Ascii Bool Lia.
From Stdlib Require Import DecimalString DecimalZ DecimalPos.
Import ListNotations.
Open Scope string_scope.
Open Scope list_scope.
Open Scope Z_scope.

(** ** Data *)

(** [interface AudioAsset] *)
Record AudioAsset : Type := mkAsset {
  id : string;
  filename : string;
  uri : string
}.

(** An [Audio.Sound] object, identified by the engine's handle. *)
Definition Sound : Type := nat.

(** [AVPlaybackStatus]: the tagged union on [isLoaded].  [durationMillis] is
    optional in the loaded case, [error] in the other. *)
Inductive AVPlaybackStatus : Type :=
| NotLoaded (error : option string)
| Loaded (positionMillis : Z) (durationMillis : option Z)
         (playing didJustFinish : bool).

(** The [useState] variables the controller reads and writes. *)
Record State : Type := mkState {
  playbackInstance : option Sound;
  isPlaying : bool;
  currentTrackIndex : Z;
  position : Z;
  duration : Z;
  isSeeking : bool
}.

(** The initial values given to [useState]. *)
Definition initialState : State :=
  {| playbackInstance := None; isPlaying := false; currentTrackIndex := -1;
     position := 0; duration := 0; isSeeking := false |}.

(** The calls made on the engine. *)
Inductive EngineCall : Type :=
| CreateAsync (source : string) (shouldPlay : bool)
| UnloadAsync (sound : Sound)
| PauseAsync (sound : Sound)
| PlayAsync (sound : Sound)
| PlayFromPositionAsync (sound : Sound) (value : Z)
| SetPositionAsync (sound : Sound) (value : Z).

(** What a handler does, one step at a time. *)
Inductive Effect : Type :=
| SetPlaybackInstance (v : option Sound)
| SetIsPlaying (v : bool)
| SetCurrentTrackIndex (v : Z)
| SetPosition (v : Z)
| SetDuration (v : Z)
| SetIsSeeking (v : bool)
| ConsoleError (msg : string)
| Engine (c : EngineCall).

(** The engine's answers during one handler invocation: whether
    [unloadAsync] resolves, the sound [Audio.Sound.createAsync] resolves to
    ([None] when it rejects), and whether a pause, play or seek call
    resolves. *)
Record Replies : Type := mkReplies {
  unloadReply : bool;
  createReply : option Sound;
  commandReply : bool
}.

(** ** Scripts: a trace of effects and an outcome *)

Module Script.

Inductive Outcome (A : Type) : Type :=
| Returned (a : A)
| Thrown (e : string).
Arguments Returned {A} a.
Arguments Thrown {A} e.

Definition t (A : Type) : Type := (list Effect * Outcome A)%type.

Definition ret {A} (a : A) : t A := ([], Returned a).

Definition bind {A B} (m : t A) (k : A -> t B) : t B :=
  match snd m with
  | Returned a => (fst m ++ fst (k a), snd (k a))
  | Thrown e => (fst m, Thrown e)
  end.

Definition emit (e : Effect) : t unit := ([e], Returned tt).

Definition throw {A} (e : string) : t A := ([], Thrown e).

(** [await call]: the call is issued; the script goes on with the value
    the promise resolves to, or throws when it rejects. *)
Definition await {A} (c : EngineCall) (reply : option A) : t A :=
  ([Engine c],
   match reply with Some a => Returned a | None => Thrown "rejected" end).

(** [try { body } catch (error) { handler }] *)
Definition tryCatch {A} (body : t A) (handler : string -> t A) : t A :=
  match snd body with
  | Returned a => body
  | Thrown e => (fst body ++ fst (handler e), snd (handler e))
  end.

Definition trace {A} (m : t A) : list Effect := fst m.

End Script.

Import Script.

Declare Scope script_scope.
Delimit Scope script_scope with script.
Notation "x <- m ;; k" := (bind m (fun x => k))
  (at level 61, m at next level, right associativity) : script_scope.
Notation "m ;; k" := (bind m (fun _ => k))
  (at level 61, right associativity) : script_scope.
Open Scope script_scope.

Definition resolved (ok : bool) : option unit := if ok then Some tt else None.

(** ** Committing a trace *)

Definition applyEffect (s : State) (e : Effect) : State :=
  match e with
  | SetPlaybackInstance v =>
      mkState v (isPlaying s) (currentTrackIndex s) (position s) (duration s) (isSeeking s)
  | SetIsPlaying v =>
      mkState (playbackInstance s) v (currentTrackIndex s) (position s) (duration s) (isSeeking s)
  | SetCurrentTrackIndex v =>
      mkState (playbackInstance s) (isPlaying s) v (position s) (duration s) (isSeeking s)
  | SetPosition v =>
      mkState (playbackInstance s) (isPlaying s) (currentTrackIndex s) v (duration s) (isSeeking s)
  | SetDuration v =>
      mkState (playbackInstance s) (isPlaying s) (currentTrackIndex s) (position s) v (isSeeking s)
  | SetIsSeeking v =>
      mkState (playbackInstance s) (isPlaying s) (currentTrackIndex s) (position s) (duration s) v
  | ConsoleError _ => s
  | Engine _ => s
  end.

Definition commit (tr : list Effect) (s : State) : State := fold_left applyEffect tr s.

(** The engine calls of a trace, in order. *)
Fixpoint engineCalls (tr : list Effect) : list EngineCall :=
  match tr with
  | [] => []
  | Engine c :: tr' => c :: engineCalls tr'
  | _ :: tr' => engineCalls tr'
  end.

(** The calls of a trace that move the playback position. *)
Definition isSeekCall (c : EngineCall) : bool :=
  match c with
  | PlayFromPositionAsync _ _ | SetPositionAsync _ _ => true
  | _ => false
  end.

(** ** The handlers *)

Section Handlers.

Variable audioAssets : list AudioAsset.

Definition len : Z := Z.of_nat (List.length audioAssets).

(** [audioAssets[index]]: [undefined] outside the array. *)
Definition assetAt (index : Z) : option AudioAsset :=
  if index <? 0 then None else nth_error audioAssets (Z.to_nat index).

(** [playAudio]: reading [asset.uri] of an undefined asset throws before
    [createAsync] is called; everything thrown is caught and logged. *)
Definition playAudio (r : State) (index : Z) (e : Replies) : Script.t unit :=
  tryCatch
    ((match playbackInstance r with
      | Some sound =>
          await (UnloadAsync sound) (resolved (unloadReply e)) ;;
          emit (SetPlaybackInstance None)
      | None => ret tt
      end) ;;
     asset <- (match assetAt index with
               | Some a => ret a
               | None => throw "TypeError: undefined asset"
               end) ;;
     sound <- await (CreateAsync (uri asset) true) (createReply e) ;;
     emit (SetPlaybackInstance (Some sound)) ;;
     emit (SetCurrentTrackIndex index) ;;
     emit (SetIsPlaying true))
    (fun error => emit (ConsoleError "Error playing audio:")).

(** [handlePlayPause] *)
Definition handlePlayPause (r : State) (e : Replies) : Script.t unit :=
  match playbackInstance r with
  | Some sound =>
      if isPlaying r
      then await (PauseAsync sound) (resolved (commandReply e))
      else await (PlayAsync sound) (resolved (commandReply e))
  | None => ret tt
  end.

(** The index [handleNext] computes from [currentTrackIndex]. *)
Definition nextIndex (cur : Z) : Z :=
  let nextIndex := cur + 1 in
  if nextIndex >=? len then 0 else nextIndex.

(** The index [handlePrevious] computes from [currentTrackIndex]. *)
Definition prevIndex (cur : Z) : Z :=
  let prevIndex := cur - 1 in
  if prevIndex <? 0 then len - 1 else prevIndex.

(** [handleNext] *)
Definition handleNext (r : State) (e : Replies) : Script.t unit :=
  if len =? 0 then ret tt
  else playAudio r (nextIndex (currentTrackIndex r)) e.

(** [handlePrevious] *)
Definition handlePrevious (r : State) (e : Replies) : Script.t unit :=
  if len =? 0 then ret tt
  else playAudio r (prevIndex (currentTrackIndex r)) e.

(** [handleSliderValueChange] *)
Definition handleSliderValueChange (value : Z) : Script.t unit :=
  emit (SetIsSeeking true) ;;
  emit (SetPosition value).

(** [handleSlidingComplete] *)
Definition handleSlidingComplete (r : State) (value : Z) (e : Replies)
  : Script.t unit :=
  (match playbackInstance r with
   | Some sound =>
       if isPlaying r
       then await (PlayFromPositionAsync sound value) (resolved (commandReply e))
       else await (SetPositionAsync sound value) (resolved (commandReply e))
   | None => ret tt
   end) ;;
  emit (SetIsSeeking false).

(** [status.error] is truthy: present and not the empty string. *)
Definition truthy (error : option string) : bool :=
  match error with
  | Some EmptyString => false
  | Some _ => true
  | None => false
  end.

(** [onPlaybackStatusUpdate] *)
Definition onPlaybackStatusUpdate (r : State) (status : AVPlaybackStatus)
  (e : Replies) : Script.t unit :=
  match status with
  | NotLoaded error =>
      if truthy error then emit (ConsoleError "Playback error:") else ret tt
  | Loaded positionMillis durationMillis playing didJustFinish =>
      (if negb (isSeeking r)
       then emit (SetPosition positionMillis) ;;
            emit (SetDuration (match durationMillis with
                               | Some d => d
                               | None => 0
                               end))
       else ret tt) ;;
      emit (SetIsPlaying playing) ;;
      (if didJustFinish then handleNext r e else ret tt)
  end.

(** ** The controller as a machine *)

(** The operations of the controller.  A status event is labelled with the
    sound it comes from; the callback receives the status only. *)
Inductive Action : Type :=
| SelectTrack (index : Z)            (* playAudio *)
| TogglePlayPause                    (* handlePlayPause *)
| Next                               (* handleNext *)
| Previous                           (* handlePrevious *)
| BeginSeek (value : Z)              (* handleSliderValueChange *)
| CommitSeek (value : Z)             (* handleSlidingComplete *)
| EngineStatus (origin : Sound) (status : AVPlaybackStatus).
                                     (* onPlaybackStatusUpdate *)

(** The handler an operation runs, with the current values in scope. *)
Definition handler (r : State) (a : Action) (e : Replies) : Script.t unit :=
  match a with
  | SelectTrack index => playAudio r index e
  | TogglePlayPause => handlePlayPause r e
  | Next => handleNext r e
  | Previous => handlePrevious r e
  | BeginSeek value => handleSliderValueChange value
  | CommitSeek value => handleSlidingComplete r value e
  | EngineStatus _ status => onPlaybackStatusUpdate r status e
  end.

(** One operation, run to completion before the next one starts, its
handler reading the current state: the handler of the latest render, as a
button press runs it.  A status callback reads the render that created its
session instead; see [stepIn]. *)
Definition step (s : State) (a : Action) (e : Replies) : State :=
  commit (trace (handler s a e)) s.

Definition run (s : State) (ops : list (Action * Replies)) : State :=
  fold_left (fun s op => step s (fst op) (snd op)) ops s.

(** The trace of a whole sequence of operations. *)
Fixpoint runTrace (s : State) (ops : list (Action * Replies)) : list Effect :=
  match ops with
  | [] => []
  | op :: ops' =>
      trace (handler s (fst op) (snd op)) ++ runTrace (step s (fst op) (snd op)) ops'
  end.

End Handlers.

Arguments len audioAssets : simpl never.

(** ** Concrete inputs *)

Definition threeTracks : list AudioAsset :=
  [ mkAsset "1" "a.mp3" "file:///music/a.mp3";
    mkAsset "2" "b.mp3" "file:///music/b.mp3";
    mkAsset "3" "c.mp3" "file:///music/c.mp3" ].

(** Every engine call resolves; [createAsync] resolves to [sound]. *)
Definition resolving (sound : Sound) : Replies := mkReplies true (Some sound) true.

(** [createAsync] rejects; the other calls resolve. *)
Definition loadRejected : Replies := mkReplies true None true.

(** ** Properties the specification names *)

(** The invariant of the specification's data model, in its words:
    currentIndex == -1 iff no session exists iff isPlaying == false. *)
Definition threeWay (s : State) : Prop :=
  (currentTrackIndex s = -1 <-> playbackInstance s = None) /\
  (playbackInstance s = None <-> isPlaying s = false).

(** A session, when there is one, belongs to a track of the list. *)
Definition sessionHasTrack (audioAssets : list AudioAsset) (s : State) : Prop :=
  playbackInstance s <> None -> 0 <= currentTrackIndex s < len audioAssets.

(** The engine calls of a track change resolve. *)
Definition loads (e : Replies) : Prop :=
  unloadReply e = true /\ createReply e <> None.

(** ** The rest of the component *)

(** *** Time labels *)

(** A number in a template literal; the numbers here are integers. *)
Definition numberToString (n : Z) : string :=
  NilZero.string_of_int (Z.to_int n).

(** [formatTime]: [Math.floor] of a quotient by a positive number is [/];
    [%] takes the sign of the dividend, as [Z.rem].  The code computes on
    doubles: for an integer of magnitude below 2^53 the argument is exact,
    both quotients round to a double with the same floor, and the numbers
    print in plain decimal; the properties below are stated within that
    bound. *)
Definition formatTime (millis : Z) : string :=
  let totalSeconds := millis / 1000 in
  let minutes := totalSeconds / 60 in
  let seconds := Z.rem totalSeconds 60 in
  (numberToString minutes ++ ":" ++
   (if (seconds <? 10)%Z then "0" else "") ++ numberToString seconds)%string.

(** The character of a decimal digit. *)
Definition digitChar (d : Z) : ascii := ascii_of_nat (48 + Z.to_nat d).

(** No character of the string is a colon. *)
Fixpoint colonFree (s : string) : bool :=
  match s with
  | EmptyString => true
  | String c s' => negb (Ascii.eqb c ":"%char) && colonFree s'
  end.

(** *** Start-up: permission and enumeration *)

Module MediaLibrary.

(** An asset as the media library lists it; [duration] stands for the fields
    the component does not copy. *)
Record Asset : Type := mkMedia {
  id : string;
  filename : string;
  uri : string;
  duration : Z
}.

End MediaLibrary.

Module Startup.

(** The [useState] variables of the component that the controller only
    reads. *)
Record Vars : Type := mkVars {
  hasPermission : option bool;
  audioAssets : list AudioAsset;
  loading : bool
}.

Definition initialVars : Vars :=
  {| hasPermission := None; audioAssets := []; loading := true |}.

Inductive Effect : Type :=
| RequestPermissionsAsync
| GetAssetsAsync (mediaType : string) (first : Z)
| Alert (title message : string)
| ConsoleError (msg : string)
| SetHasPermission (v : bool)
| SetAudioAssets (v : list AudioAsset)
| SetLoading (v : bool).

Definition applyEffect (v : Vars) (e : Effect) : Vars :=
  match e with
  | SetHasPermission b => mkVars (Some b) (audioAssets v) (loading v)
  | SetAudioAssets l => mkVars (hasPermission v) l (loading v)
  | SetLoading b => mkVars (hasPermission v) (audioAssets v) b
  | _ => v
  end.

Definition commit (tr : list Effect) (v : Vars) : Vars :=
  fold_left applyEffect tr v.

(** The object built for each listed asset. *)
Definition toAudioAsset (asset : MediaLibrary.Asset) : AudioAsset :=
  mkAsset (MediaLibrary.id asset) (MediaLibrary.filename asset)
          (MediaLibrary.uri asset).

(** [loadAudioAssets]; [media] is what [getAssetsAsync] resolves to, [None]
    when it rejects. *)
Definition loadAudioAssets (media : option (list MediaLibrary.Asset))
  : list Effect :=
  GetAssetsAsync "audio" 1000 ::
  (match media with
   | Some assets => [SetAudioAssets (map toAudioAsset assets)]
   | None => [ConsoleError "Error fetching audio assets:"]
   end) ++
  [SetLoading false].

(** The body of the mount effect; [status] is what
    [requestPermissionsAsync] resolves to, [None] when it rejects (nothing
    catches that). *)
Definition mountEffect (status : option string)
    (media : option (list MediaLibrary.Asset)) : list Effect :=
  RequestPermissionsAsync ::
  match status with
  | None => []
  | Some status =>
      if negb (status =? "granted")%string
      then [Alert "Permission required"
                  "This app needs access to your media library to display your music.";
            SetHasPermission false;
            SetLoading false]
      else SetHasPermission true :: loadAudioAssets media
  end.

End Startup.

(** *** What is rendered *)

Record Player : Type := mkPlayer {
  nowPlaying : string;
  sliderMinimum : Z;
  sliderMaximum : Z;
  sliderValue : Z;
  positionText : string;
  durationText : string;
  playPauseLabel : string
}.

(** The three screens; a library row is the key and the text of an item. *)
Inductive View : Type :=
| LoadingView
| NoPermissionView
| LibraryView (rows : list (string * string)) (player : option Player).

(** The component's return value; reading [filename] of an undefined asset
    throws. *)
Definition render (v : Startup.Vars) (s : State) : Script.Outcome View :=
  if Startup.loading v then Script.Returned LoadingView
  else
    match Startup.hasPermission v with
    | None | Some false => Script.Returned NoPermissionView
    | Some true =>
        let rows := map (fun item => (id item, filename item))
                        (Startup.audioAssets v) in
        if negb (currentTrackIndex s =? -1)
        then
          match assetAt (Startup.audioAssets v) (currentTrackIndex s) with
          | Some asset =>
              Script.Returned
                (LibraryView rows
                   (Some (mkPlayer (filename asset) 0 (duration s) (position s)
                                   (formatTime (position s))
                                   (formatTime (duration s))
                                   (if isPlaying s then "Pause" else "Play"))))
          | None => Script.Thrown "TypeError: undefined asset"
          end
        else Script.Returned (LibraryView rows None)
    end.

(** The operation behind the [k]-th row of the list. *)
Definition rowPress (k : nat) : Action := SelectTrack (Z.of_nat k).

(** *** Handlers of earlier renders *)

(** A handler keeps the values of the render that created it.  The history
    holds the states so far, the current one first; an operation names the
    render whose handler runs ([0] for the current one), reads that render's
    values, and its setters act on the current state. *)
Definition current (hist : list State) : State := hd initialState hist.

Definition inScope (hist : list State) (k : nat) : State :=
  nth k hist (current hist).

Definition stepIn (tracks : list AudioAsset) (hist : list State)
    (op : nat * Action * Replies) : list State :=
  commit (trace (handler tracks (inScope hist (fst (fst op)))
                         (snd (fst op)) (snd op)))
         (current hist) :: hist.

Definition runIn (tracks : list AudioAsset) (hist : list State)
    (ops : list (nat * Action * Replies)) : list State :=
  fold_left (stepIn tracks) ops hist.

(** The engine calls of such a run, in order. *)
Fixpoint callsIn (tracks : list AudioAsset) (hist : list State)
    (ops : list (nat * Action * Replies)) : list EngineCall :=
  match ops with
  | [] => []
  | op :: ops' =>
      engineCalls (trace (handler tracks (inScope hist (fst (fst op)))
                                  (snd (fst op)) (snd op))) ++
      callsIn tracks (stepIn tracks hist op) ops'
  end.

(** The index is -1 or inside the track list. *)
Definition indexInList (tracks : list AudioAsset) (s : State) : Prop :=
  currentTrackIndex s = -1 \/ 0 <= currentTrackIndex s < len tracks.

(** ** Lemmas on scripts and traces *)

Lemma commit_app (t1 t2 : list Effect) (s : State) :
  commit (t1 ++ t2) s = commit t2 (commit t1 s).
Proof. unfold commit. apply fold_left_app. Qed.

Lemma engineCalls_app (t1 t2 : list Effect) :
  engineCalls (t1 ++ t2) = engineCalls t1 ++ engineCalls t2.
Proof.
  induction t1 as [|x t1 IH]; [reflexivity|].
  destruct x; cbn [app engineCalls]; rewrite IH; reflexivity.
Qed.

Lemma assetAt_range (audioAssets : list AudioAsset) (i : Z) (a : AudioAsset) :
  assetAt audioAssets i = Some a -> 0 <= i < len audioAssets.
Proof.
  unfold assetAt, len. destruct (Z.ltb_spec i 0) as [Hneg|Hpos]; [discriminate|].
  intros H. assert (Hlt : (Z.to_nat i < List.length audioAssets)%nat).
  { apply nth_error_Some. congruence. }
  lia.
Qed.

Lemma assetAt_defined (audioAssets : list AudioAsset) (i : Z) :
  0 <= i < len audioAssets -> exists a, assetAt audioAssets i = Some a.
Proof.
  unfold assetAt, len. intros Hi.
  destruct (Z.ltb_spec i 0) as [Hneg|Hpos]; [lia|].
  destruct (nth_error audioAssets (Z.to_nat i)) as [a|] eqn:E; [eauto|].
  apply nth_error_None in E. lia.
Qed.

(** The five ways [playAudio] can go, by the session in scope, the engine's
    answers and the index. *)
Ltac playAudio_cases r e idx :=
  unfold playAudio, tryCatch, bind, await, emit, ret, throw, resolved, trace;
  destruct (playbackInstance r) as [?sound|];
  destruct (unloadReply e);
  destruct (assetAt _ idx) as [?asset|] eqn:?Hasset;
  destruct (createReply e) as [?created|];
  cbn.

(** A track change that goes through: the previous session is unloaded, the
    new one installed, the index set and [isPlaying] raised. *)
Lemma playAudio_loads (audioAssets : list AudioAsset) (r s : State) (i : Z)
    (e : Replies) (g : Sound) :
  0 <= i < len audioAssets -> unloadReply e = true -> createReply e = Some g ->
  commit (trace (playAudio audioAssets r i e)) s =
  mkState (Some g) true i (position s) (duration s) (isSeeking s).
Proof.
  intros Hi Hu Hc. destruct (assetAt_defined audioAssets i Hi) as [a Ha].
  unfold playAudio, tryCatch, bind, await, emit, ret, throw, resolved, trace.
  rewrite Hu, Hc, Ha. destruct (playbackInstance r); reflexivity.
Qed.

(** [playAudio] never touches the position, the duration or the seeking
    flag, whatever happens. *)
Lemma playAudio_keeps_slider (audioAssets : list AudioAsset) (r s : State)
    (i : Z) (e : Replies) :
  let s' := commit (trace (playAudio audioAssets r i e)) s in
  position s' = position s /\ duration s' = duration s /\ isSeeking s' = isSeeking s.
Proof. playAudio_cases r e i; auto. Qed.

Lemma playAudio_keeps_sessionHasTrack (audioAssets : list AudioAsset)
    (r s : State) (i : Z) (e : Replies) :
  sessionHasTrack audioAssets s ->
  sessionHasTrack audioAssets (commit (trace (playAudio audioAssets r i e)) s).
Proof.
  unfold sessionHasTrack.
  playAudio_cases r e i; intros H Hs; try (apply H; assumption);
    try (exfalso; apply Hs; reflexivity);
    eapply assetAt_range; eassumption.
Qed.

Lemma handleNext_keeps_sessionHasTrack (audioAssets : list AudioAsset)
    (r s : State) (e : Replies) :
  sessionHasTrack audioAssets s ->
  sessionHasTrack audioAssets (commit (trace (handleNext audioAssets r e)) s).
Proof.
  unfold handleNext. destruct (len audioAssets =? 0); [trivial|].
  apply playAudio_keeps_sessionHasTrack.
Qed.

Lemma step_keeps_sessionHasTrack (audioAssets : list AudioAsset) (s : State)
    (a : Action) (e : Replies) :
  sessionHasTrack audioAssets s ->
  sessionHasTrack audioAssets (step audioAssets s a e).
Proof.
  unfold step. destruct a as [i| | | |v|v|origin status]; cbn [handler].
  - apply playAudio_keeps_sessionHasTrack.
  - unfold handlePlayPause, await, ret, resolved, trace.
    destruct (playbackInstance s), (isPlaying s); trivial.
  - apply handleNext_keeps_sessionHasTrack.
  - unfold handlePrevious. destruct (len audioAssets =? 0); [trivial|].
    apply playAudio_keeps_sessionHasTrack.
  - trivial.
  - unfold handleSlidingComplete, bind, await, emit, ret, resolved, trace.
    destruct (playbackInstance s), (isPlaying s), (commandReply e); trivial.
  - destruct status as [error|p d b fin]; cbn [onPlaybackStatusUpdate].
    + destruct (truthy error); trivial.
    + intros H. destruct fin.
      * unfold bind, emit, ret, trace.
        destruct (isSeeking s); cbn [negb fst snd app];
          rewrite ?commit_app;
          apply handleNext_keeps_sessionHasTrack; exact H.
      * unfold bind, emit, ret, trace.
        destruct (isSeeking s); exact H.
Qed.

Lemma run_keeps_sessionHasTrack (audioAssets : list AudioAsset)
    (ops : list (Action * Replies)) (s : State) :
  sessionHasTrack audioAssets s ->
  sessionHasTrack audioAssets (run audioAssets s ops).
Proof.
  revert s. induction ops as [|op ops IH]; intros s H; [exact H|].
  cbn [run fold_left]. apply IH. apply step_keeps_sessionHasTrack. exact H.
Qed.

(** ** Histories *)

Lemma current_in (hist : list State) : hist <> [] -> In (current hist) hist.
Proof. destruct hist; [congruence|]. intros _. left. reflexivity. Qed.

Lemma inScope_in (hist : list State) (k : nat) :
  hist <> [] -> In (inScope hist k) hist.
Proof.
  intros Hne. unfold inScope.
  destruct (nth_in_or_default k hist (current hist)) as [H|H]; [exact H|].
  rewrite H. apply current_in. exact Hne.
Qed.

(** A property every handler keeps, whatever state it reads, holds all along
    the history. *)
Lemma runIn_invariant (tracks : list AudioAsset) (P : State -> Prop) :
  (forall r s a e, P r -> P s -> P (commit (trace (handler tracks r a e)) s)) ->
  forall ops hist, hist <> [] -> Forall P hist ->
  runIn tracks hist ops <> [] /\ Forall P (runIn tracks hist ops).
Proof.
  intros Hstep. induction ops as [|op ops IH]; intros hist Hne HP.
  - split; assumption.
  - cbn [runIn fold_left]. apply IH; [discriminate|].
    constructor; [|exact HP].
    rewrite Forall_forall in HP.
    apply Hstep; apply HP; [apply inScope_in | apply current_in]; exact Hne.
Qed.

(** Every handler, whatever render it reads, keeps a session inside the track
    list. *)
Lemma handler_keeps_sessionHasTrack (audioAssets : list AudioAsset)
    (r s : State) (a : Action) (e : Replies) :
  sessionHasTrack audioAssets s ->
  sessionHasTrack audioAssets (commit (trace (handler audioAssets r a e)) s).
Proof.
  destruct a as [i| | | |v|v|origin status]; cbn [handler].
  - apply playAudio_keeps_sessionHasTrack.
  - unfold handlePlayPause, await, ret, resolved, trace.
    destruct (playbackInstance r), (isPlaying r); trivial.
  - apply handleNext_keeps_sessionHasTrack.
  - unfold handlePrevious. destruct (len audioAssets =? 0); [trivial|].
    apply playAudio_keeps_sessionHasTrack.
  - trivial.
  - unfold handleSlidingComplete, bind, await, emit, ret, resolved, trace.
    destruct (playbackInstance r), (isPlaying r), (commandReply e); trivial.
  - destruct status as [error|p d b fin]; cbn [onPlaybackStatusUpdate].
    + destruct (truthy error); trivial.
    + intros H. unfold bind, emit, ret, trace.
      destruct fin, (isSeeking r); cbn [negb fst snd app];
        rewrite ?commit_app;
        try (apply handleNext_keeps_sessionHasTrack); exact H.
Qed.

(** The serial machine is the history machine whose handlers all belong to
    the latest render. *)
Lemma run_is_runIn_latest (audioAssets : list AudioAsset)
    (ops : list (Action * Replies)) (hist : list State) :
  current (runIn audioAssets hist
             (map (fun op => (0%nat, fst op, snd op)) ops)) =
  run audioAssets (current hist) ops.
Proof.
  revert hist. induction ops as [|op ops IH]; intros hist; [reflexivity|].
  cbn [map runIn run fold_left].
  change (fold_left (stepIn audioAssets) ?l ?h) with (runIn audioAssets h l).
  rewrite IH. unfold stepIn, current, inScope. cbn [fst snd hd].
  destruct hist; reflexivity.
Qed.

(** ** Scenarios *)

(** Tracks a, b, c: selecting the third creates its session; the engine's
    finish event, handled by the callback of the render that selected it,
    then wraps to the first track and loads it. *)
Example finish_on_last_track_wraps :
  current (runIn threeTracks [initialState]
      [(0%nat, SelectTrack 2, resolving 1%nat);
       (1%nat, EngineStatus 1%nat (Loaded 9000 (Some 9000) false true),
        resolving 2%nat)]) =
  mkState (Some 2%nat) true 0 9000 9000 false.
Proof. reflexivity. Qed.

(** The calls of a track change: the old session is unloaded before the new
    one is created with autoplay. *)
Example track_change_calls :
  engineCalls (trace (playAudio threeTracks (mkState (Some 1%nat) true 0 0 0 false)
                                1 (resolving 2%nat))) =
  [UnloadAsync 1%nat; CreateAsync "file:///music/b.mp3" true].
Proof. reflexivity. Qed.

(** An index outside the list: the old session is unloaded, the undefined
    asset throws, nothing is created and the index stays. *)
Example select_outside_list :
  trace (playAudio threeTracks (mkState (Some 1%nat) true 0 0 0 false)
                   3 (resolving 2%nat)) =
  [Engine (UnloadAsync 1%nat); SetPlaybackInstance None;
   ConsoleError "Error playing audio:"].
Proof. reflexivity. Qed.

(** A rejected seek call leaves the seeking flag up: nothing catches it. *)
Example rejected_seek_keeps_seeking :
  handleSlidingComplete (mkState (Some 1%nat) false 0 1500 9000 true) 4000
                        (mkReplies true None false) =
  ([Engine (SetPositionAsync 1%nat 4000)], Thrown "rejected").
Proof. reflexivity. Qed.

(** ** Status events and sessions *)





(** ** A load that fails *)

(** C2, as the claim states it, fails: with track 0 selected, a re-selection
    whose load is rejected leaves currentTrackIndex at the stale index 0, not
    at -1 (the session is gone and isPlaying is still true). *)
Lemma failed_reselection_keeps_stale_index :
  let s1 := run threeTracks initialState [(SelectTrack 0, resolving 1%nat)] in
  let s2 := step threeTracks s1 (SelectTrack 1) loadRejected in
  currentTrackIndex s1 = 0 /\
  s2 = mkState None true 0 0 0 false /\
  currentTrackIndex s2 <> -1.
Proof.
  cbv zeta. repeat split; try reflexivity. discriminate.
Qed.

(** C2 (amended): if the engine load call inside selectTrack(index) fails, the
    error is caught (the handler returns) and reported on the console as the
    last thing it does; currentTrackIndex and isPlaying keep the values they
    had, for every index and every prior state; the session variable is
    cleared when the previous session's unload resolved and left as it was
    otherwise. *)
Theorem failed_load_is_reported_and_index_kept
    (audioAssets : list AudioAsset) (s : State) (index : Z)
    (unloads commands : bool) :
  let e := mkReplies unloads None commands in
  let s' := step audioAssets s (SelectTrack index) e in
  snd (playAudio audioAssets s index e) = Returned tt /\
  (exists before,
      trace (playAudio audioAssets s index e) =
      before ++ [ConsoleError "Error playing audio:"]) /\
  currentTrackIndex s' = currentTrackIndex s /\
  isPlaying s' = isPlaying s /\
  playbackInstance s' = (if unloads then None else playbackInstance s).
Proof.
  cbv zeta. unfold step, handler.
  unfold playAudio, tryCatch, bind, await, emit, ret, throw, resolved, trace.
  cbn [unloadReply createReply].
  destruct (playbackInstance s) as [sound|] eqn:Hs; destruct unloads;
    destruct (assetAt audioAssets index) as [asset|]; cbn; rewrite ?Hs;
    repeat split; try reflexivity;
    match goal with
    | |- exists before, ?l = _ => exists (removelast l); reflexivity
    end.
Qed.

(** ** The invariant of the data model *)

(** C3, as the claim states it, fails: the three-way invariant holds after
    [selectTrack 0], and the status event by which the engine reports a pause
    breaks it (a session, a selected track, isPlaying false); so does a
    rejected load on re-selection (a selected track, no session). *)
Lemma three_way_invariant_not_preserved :
  let s1 := run threeTracks initialState [(SelectTrack 0, resolving 1%nat)] in
  threeWay s1 /\
  ~ threeWay (step threeTracks s1
                (EngineStatus 1%nat (Loaded 1200 (Some 9000) false false))
                (resolving 2%nat)) /\
  ~ threeWay (step threeTracks s1 (SelectTrack 1) loadRejected).
Proof.
  cbv zeta. unfold threeWay. cbn. repeat split; try discriminate.
  - intros [_ [_ H]]. specialize (H eq_refl). discriminate.
  - intros [[_ H] _]. specialize (H eq_refl). discriminate.
Qed.

(** C3 (amended): the three-way invariant holds in the initial state; what
    every controller operation preserves, on every path including the error
    paths, is its first implication: after any sequence of operations with
    any engine answers, currentIndex == -1 implies that no session exists
    (a session, when there is one, has its index inside the track list).
    The same holds of every state of a history in which each handler, the
    status callback included, reads the render it belongs to. *)
Theorem no_track_selected_implies_no_session
    (audioAssets : list AudioAsset) (ops : list (Action * Replies)) :
  threeWay initialState /\
  (currentTrackIndex (run audioAssets initialState ops) = -1 ->
   playbackInstance (run audioAssets initialState ops) = None) /\
  sessionHasTrack audioAssets (run audioAssets initialState ops) /\
  (forall (closures : list (nat * Action * Replies)) (s : State),
      In s (runIn audioAssets [initialState] closures) ->
      (currentTrackIndex s = -1 -> playbackInstance s = None) /\
      sessionHasTrack audioAssets s).
Proof.
  assert (Hinit : sessionHasTrack audioAssets initialState).
  { intros Hs. exfalso. apply Hs. reflexivity. }
  assert (Hnone : forall s, sessionHasTrack audioAssets s ->
                            currentTrackIndex s = -1 -> playbackInstance s = None).
  { intros s Hs Hidx. destruct (playbackInstance s) as [g|] eqn:E; [|reflexivity].
    unfold sessionHasTrack in Hs. rewrite E in Hs.
    assert (0 <= currentTrackIndex s < len audioAssets) by (apply Hs; discriminate).
    lia. }
  assert (H : sessionHasTrack audioAssets (run audioAssets initialState ops)).
  { apply run_keeps_sessionHasTrack. exact Hinit. }
  split; [|split; [|split; [|
    intros closures s Hin;
    assert (Hall : Forall (sessionHasTrack audioAssets)
                          (runIn audioAssets [initialState] closures))
      by (apply (runIn_invariant audioAssets (sessionHasTrack audioAssets));
          [ intros r0 s0 a0 e0 _ Hs0; apply handler_keeps_sessionHasTrack; exact Hs0
          | discriminate
          | constructor; [exact Hinit | constructor] ]);
    rewrite Forall_forall in Hall;
    split; [apply Hnone|]; apply Hall; exact Hin ]]].
  - unfold threeWay. cbn. repeat split; intros; try reflexivity.
  - intros Hidx.
    destruct (playbackInstance (run audioAssets initialState ops)) as [g|] eqn:E;
      [|reflexivity].
    unfold sessionHasTrack in H. rewrite E in H.
    assert (0 <= currentTrackIndex (run audioAssets initialState ops)
            < len audioAssets) by (apply H; discriminate).
    lia.
  - exact H.
Qed.

Lemma no_track_selected_implies_no_session_witness :
  currentTrackIndex (run threeTracks initialState
                       [(Next, loadRejected); (BeginSeek 7, loadRejected)]) = -1 /\
  playbackInstance (run threeTracks initialState
                      [(Next, loadRejected); (BeginSeek 7, loadRejected)]) = None.
Proof.
  split; [reflexivity|].
  apply (proj1 (proj2 (no_track_selected_implies_no_session threeTracks
           [(Next, loadRejected); (BeginSeek 7, loadRejected)]))).
  reflexivity.
Defined.

(** ** Next and previous *)

Lemma len_pos (audioAssets : list AudioAsset) :
  audioAssets <> [] -> 0 < len audioAssets.
Proof. unfold len. destruct audioAssets; [congruence|]. cbn [List.length]. lia. Qed.

Lemma nextIndex_mod (audioAssets : list AudioAsset) (i : Z) :
  0 < len audioAssets -> -1 <= i < len audioAssets ->
  nextIndex audioAssets i = (i + 1) mod len audioAssets.
Proof.
  intros Hlen Hi. unfold nextIndex. cbv zeta.
  destruct (Z.geb_spec (i + 1) (len audioAssets)) as [Hge|Hlt].
  - assert (i + 1 = len audioAssets) as -> by lia.
    rewrite Z.mod_same by lia. reflexivity.
  - rewrite Z.mod_small by lia. reflexivity.
Qed.

Lemma prevIndex_mod (audioAssets : list AudioAsset) (i : Z) :
  0 <= i < len audioAssets ->
  prevIndex audioAssets i = (i - 1 + len audioAssets) mod len audioAssets.
Proof.
  intros Hi. unfold prevIndex. cbv zeta.
  destruct (Z.ltb_spec (i - 1) 0) as [Hneg|Hpos].
  - assert (i = 0) as -> by lia. rewrite Z.mod_small by lia. lia.
  - replace (i - 1 + len audioAssets) with (i - 1 + 1 * len audioAssets) by lia.
    rewrite Z.mod_add by lia. rewrite Z.mod_small by lia. reflexivity.
Qed.

(** next(), when the engine calls resolve, installs the index it computes. *)
Lemma step_Next (audioAssets : list AudioAsset) (s : State) (e : Replies) :
  -1 <= currentTrackIndex s < len audioAssets -> 0 < len audioAssets -> loads e ->
  currentTrackIndex (step audioAssets s Next e) =
  nextIndex audioAssets (currentTrackIndex s).
Proof.
  intros Hi Hlen [Hu Hc]. destruct (createReply e) as [g|] eqn:Hg; [|congruence].
  unfold step, handler, handleNext.
  destruct (Z.eqb_spec (len audioAssets) 0) as [H0|_]; [lia|].
  rewrite (playAudio_loads audioAssets s s _ e g); [reflexivity| |assumption..].
  rewrite nextIndex_mod by assumption. apply Z.mod_pos_bound. lia.
Qed.

(** previous(), likewise. *)
Lemma step_Previous (audioAssets : list AudioAsset) (s : State) (e : Replies) :
  -1 <= currentTrackIndex s < len audioAssets -> 0 < len audioAssets -> loads e ->
  currentTrackIndex (step audioAssets s Previous e) =
  prevIndex audioAssets (currentTrackIndex s).
Proof.
  intros Hi Hlen [Hu Hc]. destruct (createReply e) as [g|] eqn:Hg; [|congruence].
  unfold step, handler, handlePrevious.
  destruct (Z.eqb_spec (len audioAssets) 0) as [H0|_]; [lia|].
  rewrite (playAudio_loads audioAssets s s _ e g); [reflexivity| |assumption..].
  unfold prevIndex. cbv zeta.
  destruct (Z.ltb_spec (currentTrackIndex s - 1) 0); lia.
Qed.

(** [k] presses of next from a track index move it by [k], modulo the length. *)
Lemma run_Next_mod (audioAssets : list AudioAsset) (es : list Replies) (s : State) :
  0 <= currentTrackIndex s < len audioAssets ->
  Forall loads es ->
  currentTrackIndex (run audioAssets s (map (fun e => (Next, e)) es)) =
  (currentTrackIndex s + Z.of_nat (List.length es)) mod len audioAssets.
Proof.
  revert s. induction es as [|e es IH]; intros s Hi Hes.
  - cbn. rewrite Z.add_0_r, Z.mod_small by lia. reflexivity.
  - inversion Hes as [|? ? He Hes']; subst.
    cbn [map run fold_left fst snd].
    change (fold_left _ ?l ?x) with (run audioAssets x l).
    assert (Hn : currentTrackIndex (step audioAssets s Next e) =
                 (currentTrackIndex s + 1) mod len audioAssets).
    { rewrite step_Next by (assumption || lia). apply nextIndex_mod; lia. }
    rewrite IH; [|rewrite Hn; apply Z.mod_pos_bound; lia|assumption].
    rewrite Hn, Z.add_mod_idemp_l by lia.
    f_equal. cbn [List.length]. lia.
Qed.

(** The index computation of next(), iterated [k] times from a track index. *)
Lemma iter_nextIndex_mod (audioAssets : list AudioAsset) (k : nat) (i : Z) :
  0 <= i < len audioAssets ->
  Nat.iter k (nextIndex audioAssets) i = (i + Z.of_nat k) mod len audioAssets.
Proof.
  intros Hi. induction k as [|k IH].
  - cbn. rewrite Z.add_0_r, Z.mod_small by lia. reflexivity.
  - change (Nat.iter (S k) (nextIndex audioAssets) i)
      with (nextIndex audioAssets (Nat.iter k (nextIndex audioAssets) i)).
    rewrite IH.
    pose proof (Z.mod_pos_bound (i + Z.of_nat k) (len audioAssets)) as Hb.
    rewrite nextIndex_mod by lia.
    rewrite Z.add_mod_idemp_l by lia. f_equal. lia.
Qed.

(** C4, as the claim states it, fails at the starting value -1 (no track
    selected): with three tracks, three presses of next lead from -1 to 0, 1
    and 2, not back to -1. *)
Lemma next_three_times_from_no_track :
  let s3 := run threeTracks initialState
              [(Next, resolving 1%nat); (Next, resolving 2%nat); (Next, resolving 3%nat)] in
  currentTrackIndex initialState = -1 /\
  currentTrackIndex s3 = 2 /\
  currentTrackIndex s3 <> currentTrackIndex initialState.
Proof.
  cbv zeta. repeat split; try reflexivity. discriminate.
Qed.

(** C4 (amended): for every non-empty track list and every starting value of
    currentIndex that is an index into the list (0 <= currentIndex < len),
    the index computation of next() applied len(tracks) times returns to the
    original value, and so does currentIndex under len(tracks) applications
    of next() whose engine calls resolve; next() computes
    (currentIndex + 1) mod len(tracks), wrapping to 0 past the last track. *)
Theorem next_len_times_returns_to_start
    (audioAssets : list AudioAsset) (s : State) (es : list Replies) :
  audioAssets <> [] ->
  0 <= currentTrackIndex s < len audioAssets ->
  List.length es = List.length audioAssets ->
  Forall loads es ->
  nextIndex audioAssets (currentTrackIndex s) =
    (currentTrackIndex s + 1) mod len audioAssets /\
  nextIndex audioAssets (len audioAssets - 1) = 0 /\
  Nat.iter (List.length audioAssets) (nextIndex audioAssets) (currentTrackIndex s) =
    currentTrackIndex s /\
  currentTrackIndex (run audioAssets s (map (fun e => (Next, e)) es)) =
    currentTrackIndex s.
Proof.
  intros Hne Hi Hlen Hes. pose proof (len_pos audioAssets Hne) as Hpos.
  assert (Hback : (currentTrackIndex s + len audioAssets) mod len audioAssets =
                  currentTrackIndex s).
  { replace (currentTrackIndex s + len audioAssets)
      with (currentTrackIndex s + 1 * len audioAssets) by lia.
    rewrite Z.mod_add by lia. apply Z.mod_small. assumption. }
  split; [|split; [|split]].
  - apply nextIndex_mod; lia.
  - unfold nextIndex. cbv zeta.
    destruct (Z.geb_spec (len audioAssets - 1 + 1) (len audioAssets)); [reflexivity|lia].
  - rewrite iter_nextIndex_mod by assumption. exact Hback.
  - rewrite run_Next_mod by assumption.
    rewrite Hlen. exact Hback.
Qed.

Lemma next_len_times_returns_to_start_witness :
  let s := mkState (Some 4%nat) true 1 0 0 false in
  let es := [resolving 5%nat; resolving 6%nat; resolving 7%nat] in
  nextIndex threeTracks (currentTrackIndex s) =
    (currentTrackIndex s + 1) mod len threeTracks /\
  nextIndex threeTracks (len threeTracks - 1) = 0 /\
  Nat.iter (List.length threeTracks) (nextIndex threeTracks) (currentTrackIndex s) =
    currentTrackIndex s /\
  currentTrackIndex (run threeTracks s (map (fun e => (Next, e)) es)) =
    currentTrackIndex s.
Proof.
  cbv zeta.
  apply (next_len_times_returns_to_start threeTracks
           (mkState (Some 4%nat) true 1 0 0 false)
           [resolving 5%nat; resolving 6%nat; resolving 7%nat]).
  - discriminate.
  - cbn. unfold len. cbn. lia.
  - reflexivity.
  - repeat constructor; discriminate.
Defined.

(** C5, as the claim states it, fails at i = -1, a value currentIndex takes:
    with three tracks next maps -1 to 0 and previous maps 0 to 2; and
    previous maps -1 to 2, where (i - 1 + len) mod len is 1. *)
Lemma previous_after_next_from_no_track :
  nextIndex threeTracks (-1) = 0 /\
  prevIndex threeTracks (nextIndex threeTracks (-1)) = 2 /\
  prevIndex threeTracks (nextIndex threeTracks (-1)) <> -1 /\
  prevIndex threeTracks (-1) = 2 /\
  (-1 - 1 + len threeTracks) mod len threeTracks = 1.
Proof.
  repeat split; try reflexivity. discriminate.
Qed.

(** C5 (amended): for every non-empty track list and every index i into it
    (0 <= i < len), previous(next(i)) == i, where next maps i to
    (i + 1) mod len(tracks) and previous maps i to
    (i - 1 + len(tracks)) mod len(tracks); on the controller, next() followed
    by previous(), the engine calls resolving, brings currentIndex back to i. *)
Theorem previous_inverts_next_on_indices
    (audioAssets : list AudioAsset) (i : Z) :
  audioAssets <> [] ->
  0 <= i < len audioAssets ->
  prevIndex audioAssets (nextIndex audioAssets i) = i /\
  nextIndex audioAssets i = (i + 1) mod len audioAssets /\
  prevIndex audioAssets i = (i - 1 + len audioAssets) mod len audioAssets /\
  (forall (s : State) (e1 e2 : Replies),
      currentTrackIndex s = i -> loads e1 -> loads e2 ->
      currentTrackIndex (run audioAssets s [(Next, e1); (Previous, e2)]) = i).
Proof.
  intros Hne Hi. pose proof (len_pos audioAssets Hne) as Hpos.
  assert (Hinv : prevIndex audioAssets (nextIndex audioAssets i) = i).
  { unfold prevIndex, nextIndex. cbv zeta.
    destruct (Z.geb_spec (i + 1) (len audioAssets)) as [Hge|Hlt].
    - destruct (Z.ltb_spec (0 - 1) 0); lia.
    - destruct (Z.ltb_spec (i + 1 - 1) 0); lia. }
  split; [exact Hinv|]. split; [apply nextIndex_mod; lia|].
  split; [apply prevIndex_mod; lia|].
  intros s e1 e2 Hs He1 He2. cbn [run fold_left fst snd].
  assert (Hn : currentTrackIndex (step audioAssets s Next e1) =
               nextIndex audioAssets i).
  { rewrite step_Next by (assumption || lia). rewrite Hs. reflexivity. }
  rewrite step_Previous; [rewrite Hn; exact Hinv| |assumption..].
  rewrite Hn, nextIndex_mod by lia.
  pose proof (Z.mod_pos_bound (i + 1) (len audioAssets) Hpos). lia.
Qed.

Lemma previous_inverts_next_on_indices_witness :
  let s := mkState (Some 4%nat) false 2 0 0 false in
  prevIndex threeTracks (nextIndex threeTracks 2) = 2 /\
  nextIndex threeTracks 2 = (2 + 1) mod len threeTracks /\
  prevIndex threeTracks 2 = (2 - 1 + len threeTracks) mod len threeTracks /\
  currentTrackIndex
    (run threeTracks s [(Next, resolving 5%nat); (Previous, resolving 6%nat)]) = 2.
Proof.
  cbv zeta.
  assert (Hne : threeTracks <> []) by discriminate.
  assert (Hi : 0 <= 2 < len threeTracks) by (unfold len; cbn; lia).
  destruct (previous_inverts_next_on_indices threeTracks 2 Hne Hi)
    as (H1 & H2 & H3 & H4).
  split; [exact H1|]. split; [exact H2|]. split; [exact H3|].
  apply H4; [reflexivity| |]; split; (reflexivity || discriminate).
Defined.

(** C10: when no track has yet been selected (currentTrackIndex = -1) and the
    track list is non-empty, next() computes index 0 and previous() computes
    index len - 1; both are inside the list, so the asset is defined;
    [createAsync] is called on its uri with autoplay, and when the engine
    calls resolve the index is set to it, the new session installed and
    isPlaying raised. *)
Theorem next_and_previous_from_no_track
    (audioAssets : list AudioAsset) (s : State) (e : Replies) (g : Sound) :
  audioAssets <> [] ->
  currentTrackIndex s = -1 ->
  unloadReply e = true ->
  createReply e = Some g ->
  (exists first,
      assetAt audioAssets (nextIndex audioAssets (currentTrackIndex s)) = Some first /\
      nth_error audioAssets 0 = Some first /\
      In (Engine (CreateAsync (uri first) true))
         (trace (handleNext audioAssets s e))) /\
  step audioAssets s Next e =
    mkState (Some g) true 0 (position s) (duration s) (isSeeking s) /\
  (exists last,
      assetAt audioAssets (prevIndex audioAssets (currentTrackIndex s)) = Some last /\
      nth_error audioAssets (List.length audioAssets - 1) = Some last /\
      In (Engine (CreateAsync (uri last) true))
         (trace (handlePrevious audioAssets s e))) /\
  step audioAssets s Previous e =
    mkState (Some g) true (len audioAssets - 1)
            (position s) (duration s) (isSeeking s).
Proof.
  intros Hne Hcur Hu Hc. pose proof (len_pos audioAssets Hne) as Hpos.
  assert (Hn : nextIndex audioAssets (currentTrackIndex s) = 0).
  { rewrite Hcur. unfold nextIndex. cbv zeta.
    destruct (Z.geb_spec (-1 + 1) (len audioAssets)); [lia|reflexivity]. }
  assert (Hp : prevIndex audioAssets (currentTrackIndex s) = len audioAssets - 1).
  { rewrite Hcur. unfold prevIndex. cbv zeta.
    destruct (Z.ltb_spec (-1 - 1) 0); [reflexivity|lia]. }
  assert (Hz : (len audioAssets =? 0) = false) by (apply Z.eqb_neq; lia).
  assert (Hcall : forall i a, assetAt audioAssets i = Some a ->
            In (Engine (CreateAsync (uri a) true))
               (trace (playAudio audioAssets s i e))).
  { intros i a Ha.
    unfold playAudio, tryCatch, bind, await, emit, ret, throw, resolved, trace.
    rewrite Hu, Hc, Ha. destruct (playbackInstance s); cbn; auto. }
  split; [|split; [|split]].
  - rewrite Hn. destruct (assetAt_defined audioAssets 0) as [a Ha]; [lia|].
    exists a. split; [exact Ha|]. split; [exact Ha|].
    unfold handleNext. rewrite Hz, Hn. apply Hcall. exact Ha.
  - unfold step, handler, handleNext. rewrite Hz, Hn.
    apply playAudio_loads; (assumption || lia).
  - rewrite Hp. destruct (assetAt_defined audioAssets (len audioAssets - 1)) as [a Ha];
      [lia|].
    exists a. split; [exact Ha|]. split.
    + unfold assetAt in Ha.
      destruct (Z.ltb_spec (len audioAssets - 1) 0); [lia|].
      rewrite <- Ha. f_equal. unfold len. lia.
    + unfold handlePrevious. rewrite Hz, Hp. apply Hcall. exact Ha.
  - unfold step, handler, handlePrevious. rewrite Hz, Hp.
    apply playAudio_loads; (assumption || lia).
Qed.

Lemma next_and_previous_from_no_track_witness :
  step threeTracks initialState Next (resolving 1%nat) =
    mkState (Some 1%nat) true 0 0 0 false /\
  step threeTracks initialState Previous (resolving 1%nat) =
    mkState (Some 1%nat) true 2 0 0 false.
Proof.
  assert (Hne : threeTracks <> []) by discriminate.
  destruct (next_and_previous_from_no_track threeTracks initialState
              (resolving 1%nat) 1%nat Hne eq_refl eq_refl eq_refl)
    as (_ & Hnext & _ & Hprev).
  split; [exact Hnext | exact Hprev].
Defined.

(** ** Play, pause and seek *)

(** C9: togglePlayPause() does nothing when no session exists (no engine
    call, no state change); with a session it issues pause if isPlaying is
    true and play otherwise; in no case does it call the isPlaying setter or
    change the state at all, whether the engine call resolves or not. *)
Theorem toggle_issues_command_and_keeps_state (r s : State) (e : Replies) :
  (playbackInstance r = None -> trace (handlePlayPause r e) = []) /\
  (forall sound, playbackInstance r = Some sound ->
     trace (handlePlayPause r e) =
     [Engine (if isPlaying r then PauseAsync sound else PlayAsync sound)]) /\
  (forall b, ~ In (SetIsPlaying b) (trace (handlePlayPause r e))) /\
  commit (trace (handlePlayPause r e)) s = s.
Proof.
  unfold handlePlayPause, await, ret, resolved, trace.
  destruct (playbackInstance r) as [sound|], (isPlaying r); cbn;
    repeat split; try congruence;
    try (intros ? H; inversion H; reflexivity);
    try (intros b [H|[]]; discriminate);
    try (intros b []).
Qed.

Lemma toggle_issues_command_and_keeps_state_witness :
  trace (handlePlayPause initialState loadRejected) = [] /\
  trace (handlePlayPause (mkState (Some 1%nat) true 0 0 0 false) loadRejected) =
    [Engine (PauseAsync 1%nat)] /\
  trace (handlePlayPause (mkState (Some 1%nat) false 0 0 0 false) loadRejected) =
    [Engine (PlayAsync 1%nat)].
Proof.
  split; [|split].
  - apply (proj1 (toggle_issues_command_and_keeps_state
                    initialState initialState loadRejected)). reflexivity.
  - apply (proj1 (proj2 (toggle_issues_command_and_keeps_state
                    (mkState (Some 1%nat) true 0 0 0 false) initialState loadRejected))
             1%nat). reflexivity.
  - apply (proj1 (proj2 (toggle_issues_command_and_keeps_state
                    (mkState (Some 1%nat) false 0 0 0 false) initialState loadRejected))
             1%nat). reflexivity.
Defined.

(** C6: for every state with an active session and isPlaying false,
    commitSeek(v) issues exactly the engine's seek-to-position call, not
    play-from-position, calls no isPlaying setter and leaves isPlaying as it
    is; for every state with no session it issues no engine call and only
    clears isSeeking. *)
Theorem commit_seek_while_paused_or_without_session
    (r : State) (value : Z) (e : Replies) :
  (forall sound, playbackInstance r = Some sound -> isPlaying r = false ->
     engineCalls (trace (handleSlidingComplete r value e)) =
       [SetPositionAsync sound value] /\
     (forall b, ~ In (SetIsPlaying b) (trace (handleSlidingComplete r value e))) /\
     (forall s, isPlaying (commit (trace (handleSlidingComplete r value e)) s) =
                isPlaying s)) /\
  (playbackInstance r = None ->
     trace (handleSlidingComplete r value e) = [SetIsSeeking false]).
Proof.
  unfold handleSlidingComplete, bind, await, emit, ret, resolved, trace.
  split.
  - intros sound Hs Hp. rewrite Hs, Hp.
    destruct (commandReply e); cbn; repeat split;
      try (intros b H; repeat (destruct H as [H|H]; try discriminate); exact H).
  - intros Hs. rewrite Hs. reflexivity.
Qed.

Lemma commit_seek_while_paused_or_without_session_witness :
  engineCalls (trace (handleSlidingComplete
                        (mkState (Some 1%nat) false 0 1500 9000 true) 4000
                        (resolving 2%nat))) =
    [SetPositionAsync 1%nat 4000] /\
  trace (handleSlidingComplete (mkState None true 0 1500 9000 true) 4000
                               (resolving 2%nat)) =
    [SetIsSeeking false].
Proof.
  split.
  - apply (proj1 (commit_seek_while_paused_or_without_session
                    (mkState (Some 1%nat) false 0 1500 9000 true) 4000
                    (resolving 2%nat)) 1%nat); reflexivity.
  - apply (proj2 (commit_seek_while_paused_or_without_session
                    (mkState None true 0 1500 9000 true) 4000 (resolving 2%nat))).
    reflexivity.
Defined.

Lemma runTrace_app (audioAssets : list AudioAsset)
    (ops1 ops2 : list (Action * Replies)) (s : State) :
  runTrace audioAssets s (ops1 ++ ops2) =
  runTrace audioAssets s ops1 ++ runTrace audioAssets (run audioAssets s ops1) ops2.
Proof.
  revert s. induction ops1 as [|op ops1 IH]; intros s; [reflexivity|].
  cbn [app runTrace run fold_left]. rewrite IH, app_assoc. reflexivity.
Qed.

Lemma last_cons {A} (a d : A) (l : list A) : last (a :: l) d = last l a.
Proof.
  revert a d. induction l as [|b l IH]; intros a d; [reflexivity|].
  change (last (a :: b :: l) d) with (last (b :: l) d).
  rewrite !IH. reflexivity.
Qed.

(** A drag: the first beginSeek and the intermediate ones contact no engine;
    the state afterwards differs from the one before only in isSeeking, now
    true, and in the position, now the last value given. *)
Lemma drag_is_local (audioAssets : list AudioAsset)
    (drags : list (Z * Replies)) (v0 : Z) (e0 : Replies) (s : State) :
  let begins := (BeginSeek v0, e0) ::
                map (fun d => (BeginSeek (fst d), snd d)) drags in
  engineCalls (runTrace audioAssets s begins) = [] /\
  run audioAssets s begins =
    mkState (playbackInstance s) (isPlaying s) (currentTrackIndex s)
            (last (map fst drags) v0) (duration s) true.
Proof.
  cbv zeta. revert v0 e0 s.
  induction drags as [|[v1 e1] drags IH]; intros v0 e0 s.
  - split; reflexivity.
  - destruct (IH v1 e1 (step audioAssets s (BeginSeek v0) e0)) as [IHcalls IHrun].
    split.
    + cbn [map runTrace fst snd] in *. rewrite engineCalls_app. exact IHcalls.
    + cbn [map run fold_left fst snd] in *. rewrite IHrun.
      rewrite last_cons. reflexivity.
Qed.

(** C7, as the claim states it, fails when no session exists: after a
    rejected load on re-selection (track 0 still shown, no session) a
    beginSeek, an intermediate beginSeek and commitSeek(3000) issue no engine
    call at all, not one. *)
Lemma seek_without_session_issues_nothing :
  let s := run threeTracks initialState
             [(SelectTrack 0, resolving 1%nat); (SelectTrack 1, loadRejected)] in
  let calls := engineCalls (runTrace threeTracks s
                 [(BeginSeek 1000, resolving 2%nat); (BeginSeek 2000, resolving 2%nat);
                  (CommitSeek 3000, resolving 2%nat)]) in
  playbackInstance s = None /\ currentTrackIndex s = 0 /\
  calls = [] /\
  List.length (filter isSeekCall calls) <> 1%nat.
Proof.
  cbv zeta. repeat split; try reflexivity. discriminate.
Qed.

(** C7 (amended): for every N >= 0 and every sequence of values, a beginSeek
    call followed by N intermediate beginSeek calls and one commitSeek(v)
    issues, in total, exactly one engine command when a session exists
    (play-from-position with value v if isPlaying, seek-to-position with
    value v otherwise) and none when no session exists; no engine command is
    issued for any beginSeek value, and the beginSeek calls only set
    isSeeking = true and the position to the last value given. *)
Theorem seek_gesture_contacts_engine_once_on_commit
    (audioAssets : list AudioAsset) (s : State)
    (v0 : Z) (e0 : Replies) (drags : list (Z * Replies)) (v : Z) (e : Replies) :
  let begins := (BeginSeek v0, e0) ::
                map (fun d => (BeginSeek (fst d), snd d)) drags in
  engineCalls (runTrace audioAssets s begins) = [] /\
  run audioAssets s begins =
    mkState (playbackInstance s) (isPlaying s) (currentTrackIndex s)
            (last (map fst drags) v0) (duration s) true /\
  engineCalls (runTrace audioAssets s (begins ++ [(CommitSeek v, e)])) =
    match playbackInstance s with
    | Some sound =>
        [if isPlaying s then PlayFromPositionAsync sound v
         else SetPositionAsync sound v]
    | None => []
    end.
Proof.
  cbv zeta. destruct (drag_is_local audioAssets drags v0 e0 s) as [Hcalls Hrun].
  split; [exact Hcalls|]. split; [exact Hrun|].
  rewrite runTrace_app, engineCalls_app, Hcalls, Hrun.
  cbn [app runTrace fst snd handler].
  unfold handleSlidingComplete, bind, await, emit, ret, resolved, trace.
  cbn [playbackInstance isPlaying].
  destruct (playbackInstance s), (isPlaying s), (commandReply e); reflexivity.
Qed.

(** ** Reconciliation with the engine's status *)

Lemma handleNext_keeps_slider (audioAssets : list AudioAsset) (r s : State)
    (e : Replies) :
  let s' := commit (trace (handleNext audioAssets r e)) s in
  position s' = position s /\ duration s' = duration s /\ isSeeking s' = isSeeking s.
Proof.
  cbv zeta. unfold handleNext. destruct (len audioAssets =? 0); [auto|].
  apply playAudio_keeps_slider.
Qed.

(** What the callback does with a loaded status event, with [isSeeking] the
    value the callback holds (that of the render that created its session,
    not the controller's current one): if it is false the event's position
    and duration are written to the state, an absent duration as 0; if it is
    true position and duration are left unchanged; in both cases the
    isPlaying setter is called with the event's flag.  The handler's own part
    (all of it when the event reports no finish, what precedes the transition
    of next() when it does) contacts no engine and leaves isPlaying equal to
    the event's flag. *)
Lemma loaded_status_event_reconciles
    (audioAssets : list AudioAsset) (r s : State)
    (p : Z) (d : option Z) (b fin : bool) (e : Replies) :
  let own := trace (onPlaybackStatusUpdate audioAssets r (Loaded p d b false) e) in
  let tr := trace (onPlaybackStatusUpdate audioAssets r (Loaded p d b fin) e) in
  position (commit tr s) = (if isSeeking r then position s else p) /\
  duration (commit tr s) =
    (if isSeeking r then duration s
     else match d with Some x => x | None => 0 end) /\
  In (SetIsPlaying b) tr /\
  tr = own ++ (if fin then trace (handleNext audioAssets r e) else []) /\
  engineCalls own = [] /\
  isPlaying (commit own s) = b.
Proof.
  cbv zeta.
  assert (Hsplit :
    trace (onPlaybackStatusUpdate audioAssets r (Loaded p d b fin) e) =
    trace (onPlaybackStatusUpdate audioAssets r (Loaded p d b false) e) ++
    (if fin then trace (handleNext audioAssets r e) else [])).
  { unfold onPlaybackStatusUpdate, bind, emit, ret, trace.
    destruct (isSeeking r), fin; cbn [negb fst snd app]; reflexivity. }
  assert (Hown :
    trace (onPlaybackStatusUpdate audioAssets r (Loaded p d b false) e) =
    if isSeeking r then [SetIsPlaying b]
    else [SetPosition p;
          SetDuration (match d with Some x => x | None => 0 end);
          SetIsPlaying b]).
  { unfold onPlaybackStatusUpdate, bind, emit, ret, trace.
    destruct (isSeeking r); reflexivity. }
  rewrite Hsplit, Hown, commit_app.
  assert (Hrest : forall s0,
    let s' := commit (if fin then trace (handleNext audioAssets r e) else []) s0 in
    position s' = position s0 /\ duration s' = duration s0).
  { intros s0. destruct fin; [|cbn; auto].
    destruct (handleNext_keeps_slider audioAssets r s0 e) as (Hp & Hd & _). auto. }
  cbv zeta in Hrest.
  repeat split.
  - rewrite (proj1 (Hrest _)). destruct (isSeeking r); reflexivity.
  - rewrite (proj2 (Hrest _)). destruct (isSeeking r); reflexivity.
  - apply in_or_app. left. destruct (isSeeking r); cbn; auto.
  - destruct (isSeeking r); reflexivity.
  - destruct (isSeeking r); reflexivity.
Qed.

(** C8 (failing input): the guard on isSeeking reads the flag of the render
    that created the session, so it does not protect a drag that began
    later.  Track 0 is selected in the first render (session 1, whose
    callback holds isSeeking false); the user begins a seek at 4000
    (isSeeking true, position 4000); a loaded status event of session 1 then
    arrives with position 1500 and duration 9000.  The claim has position and
    duration left unchanged while isSeeking is true; the code, with
    isSeeking still true, overwrites them with 1500 and 9000. *)
Theorem status_event_overwrites_dragged_position :
  let hist := runIn threeTracks [initialState]
                [(0%nat, SelectTrack 0, resolving 1%nat);
                 (0%nat, BeginSeek 4000, resolving 1%nat)] in
  let after := current (stepIn threeTracks hist
                 (2%nat, EngineStatus 1%nat (Loaded 1500 (Some 9000) true false),
                  resolving 1%nat)) in
  inScope hist 2 = initialState /\
  current hist = mkState (Some 1%nat) true 0 4000 0 true /\
  after = mkState (Some 1%nat) true 0 1500 9000 true /\
  isSeeking (current hist) = true /\
  position after <> position (current hist) /\
  duration after <> duration (current hist).
Proof.
  cbv zeta. repeat split; try reflexivity; discriminate.
Qed.

(** ** Time labels *)

Example formatTime_samples :
  formatTime 0 = "0:00" /\ formatTime 65000 = "1:05" /\
  formatTime 599999 = "9:59" /\ formatTime 3600000 = "60:00" /\
  formatTime (-1) = "-1:0-1".
Proof. repeat split; reflexivity. Qed.

Lemma to_int_not_nil (n : Z) :
  Z.to_int n <> Decimal.Pos Decimal.Nil /\ Z.to_int n <> Decimal.Neg Decimal.Nil.
Proof.
  destruct n as [|p|p]; cbn; split; try discriminate;
    intros H; injection H as H; exact (DecimalPos.Unsigned.to_uint_nonnil p H).
Qed.

Lemma numberToString_inj (a b : Z) :
  numberToString a = numberToString b -> a = b.
Proof.
  unfold numberToString. intros H.
  apply (f_equal NilZero.int_of_string) in H.
  destruct (to_int_not_nil a) as [Ha1 Ha2]. destruct (to_int_not_nil b) as [Hb1 Hb2].
  rewrite !NilZero.isi in H by assumption.
  injection H as H. apply (f_equal Z.of_int) in H.
  rewrite !DecimalZ.of_to in H. exact H.
Qed.

Lemma colonFree_uint (d : Decimal.uint) :
  colonFree (NilEmpty.string_of_uint d) = true.
Proof. induction d; cbn; auto. Qed.

Lemma colonFree_number (n : Z) : 0 <= n -> colonFree (numberToString n) = true.
Proof.
  intros Hn. destruct n as [|p|p]; [reflexivity| |lia].
  unfold numberToString. cbn [Z.to_int NilZero.string_of_int].
  pose proof (DecimalPos.Unsigned.to_uint_nonnil p) as Hnil.
  unfold NilZero.string_of_uint.
  destruct (Pos.to_uint p) eqn:E; try (rewrite <- E; apply colonFree_uint).
  congruence.
Qed.

Lemma split_at_colon (a b x y : string) :
  colonFree a = true -> colonFree b = true ->
  (a ++ ":" ++ x)%string = (b ++ ":" ++ y)%string -> a = b /\ x = y.
Proof.
  revert b. induction a as [|c a IH]; intros [|c' b] Ha Hb H; cbn in *.
  - injection H as H. auto.
  - injection H as Hc H. subst c'. cbn in Hb. discriminate.
  - injection H as Hc H. subst c. cbn in Ha. discriminate.
  - injection H as Hc H. subst c'.
    apply andb_prop in Ha. apply andb_prop in Hb.
    destruct (IH b (proj2 Ha) (proj2 Hb) H) as [-> ->]. auto.
Qed.

(** The seconds field of a label, for a number of seconds below a minute. *)
Lemma seconds_field (s : Z) :
  0 <= s < 60 ->
  ((if (s <? 10)%Z then "0" else "") ++ numberToString s)%string =
  String (digitChar (s / 10)) (String (digitChar (s mod 10)) "").
Proof.
  intros Hs. replace s with (Z.of_nat (Z.to_nat s)) by lia.
  assert (Hn : (Z.to_nat s < 60)%nat) by lia.
  generalize dependent (Z.to_nat s). intros n Hn.
  do 60 (destruct n as [|n]; [reflexivity|]). lia.
Qed.

Lemma digitChar_inj (a b : Z) :
  0 <= a < 10 -> 0 <= b < 10 -> digitChar a = digitChar b -> a = b.
Proof.
  unfold digitChar. intros Ha Hb H.
  apply (f_equal nat_of_ascii) in H.
  rewrite !nat_ascii_embedding in H by lia. lia.
Qed.

Lemma formatTime_fields (millis : Z) :
  0 <= millis ->
  formatTime millis =
  (numberToString (millis / 1000 / 60) ++ ":" ++
   String (digitChar ((millis / 1000) mod 60 / 10))
          (String (digitChar ((millis / 1000) mod 60 mod 10)) ""))%string.
Proof.
  intros Hm. unfold formatTime. cbv zeta.
  assert (Ht : 0 <= millis / 1000) by (apply Z.div_pos; lia).
  rewrite Z.rem_mod_nonneg by lia.
  rewrite seconds_field by (apply Z.mod_pos_bound; lia).
  reflexivity.
Qed.

Lemma length_append (a b : string) :
  String.length (a ++ b)%string = (String.length a + String.length b)%nat.
Proof. induction a as [|c a IH]; cbn; [reflexivity|]. rewrite IH. reflexivity. Qed.

(** X1: formatTime, for a whole number of milliseconds that is not negative
    and below 2^53 (where the code's doubles are exact): the minutes in decimal, a
    colon, and the seconds within the minute as exactly two decimal digits
    (zero-padded); sub-second milliseconds are dropped, and the label is
    three characters longer than the minutes. *)
Theorem formatTime_minutes_and_two_digit_seconds (millis : Z) :
  0 <= millis < 2 ^ 53 ->
  formatTime millis =
  (numberToString (millis / 1000 / 60) ++ ":" ++
   String (digitChar ((millis / 1000) mod 60 / 10))
          (String (digitChar ((millis / 1000) mod 60 mod 10)) ""))%string /\
  String.length (formatTime millis) =
  (String.length (numberToString (millis / 1000 / 60)) + 3)%nat.
Proof.
  intros [Hm _]. rewrite formatTime_fields by assumption. split; [reflexivity|].
  rewrite length_append. reflexivity.
Qed.

Lemma formatTime_minutes_and_two_digit_seconds_witness :
  formatTime 754321 =
  (numberToString 12 ++ ":" ++ String (digitChar 3) (String (digitChar 4) ""))%string /\
  String.length (formatTime 754321) = 5%nat.
Proof.
  apply (formatTime_minutes_and_two_digit_seconds 754321). lia.
Defined.

(** X2: two times that are not negative and below 2^53 (where the code's
    doubles are exact) get the same label exactly when they lie
    in the same whole second: the label loses nothing but the milliseconds. *)
Theorem formatTime_equal_iff_same_second (m1 m2 : Z) :
  0 <= m1 < 2 ^ 53 -> 0 <= m2 < 2 ^ 53 ->
  (formatTime m1 = formatTime m2 <-> m1 / 1000 = m2 / 1000).
Proof.
  intros [H1 _] [H2 _]. split.
  - intros H.
    rewrite (formatTime_fields m1),
            (formatTime_fields m2) in H by assumption.
    assert (Ht1 : 0 <= m1 / 1000) by (apply Z.div_pos; lia).
    assert (Ht2 : 0 <= m2 / 1000) by (apply Z.div_pos; lia).
    pose proof (Z.mod_pos_bound (m1 / 1000) 60) as Hb1.
    pose proof (Z.mod_pos_bound (m2 / 1000) 60) as Hb2.
    apply split_at_colon in H;
      try (apply colonFree_number; apply Z.div_pos; lia).
    destruct H as [Hmin Hsec].
    apply numberToString_inj in Hmin.
    injection Hsec as Htens Hones.
    apply digitChar_inj in Htens;
      [|split; [apply Z.div_pos; lia | apply Z.div_lt_upper_bound; lia]..].
    apply digitChar_inj in Hones; [|apply Z.mod_pos_bound; lia..].
    pose proof (Z.div_mod (m1 / 1000) 60). pose proof (Z.div_mod (m2 / 1000) 60).
    pose proof (Z.div_mod ((m1 / 1000) mod 60) 10).
    pose proof (Z.div_mod ((m2 / 1000) mod 60) 10).
    lia.
  - intros H. unfold formatTime. rewrite H. reflexivity.
Qed.

Lemma formatTime_equal_iff_same_second_witness :
  formatTime 65000 = formatTime 65999 /\ formatTime 65999 <> formatTime 66000.
Proof.
  split.
  - apply (proj2 (formatTime_equal_iff_same_second 65000 65999
                    ltac:(lia) ltac:(lia))). reflexivity.
  - intros H.
    apply (proj1 (formatTime_equal_iff_same_second 65999 66000
                    ltac:(lia) ltac:(lia))) in H. discriminate.
Defined.

(** ** Start-up *)

Lemma rows_of_listed (media : list MediaLibrary.Asset) :
  map (fun item => (id item, filename item)) (map Startup.toAudioAsset media) =
  map (fun m => (MediaLibrary.id m, MediaLibrary.filename m)) media.
Proof. rewrite map_map. reflexivity. Qed.

Lemma assetAt_of_nat (tracks : list AudioAsset) (k : nat) :
  assetAt tracks (Z.of_nat k) = nth_error tracks k.
Proof.
  unfold assetAt. destruct (Z.ltb_spec (Z.of_nat k) 0); [lia|].
  rewrite Nat2Z.id. reflexivity.
Qed.

(** X3: start-up, when the permission request resolves: loading ends false on
    every path and hasPermission is decided by the status; the library is
    enumerated exactly when the status is granted, and the alert is shown
    exactly when it is not; the asset list is replaced only by a successful
    enumeration (kept on a denial and on an enumeration error).  When the
    permission request itself rejects, nothing is set: loading stays as it
    was. *)
Theorem mount_effect_outcome
    (status : string) (media : option (list MediaLibrary.Asset))
    (v : Startup.Vars) :
  let tr := Startup.mountEffect (Some status) media in
  let v' := Startup.commit tr v in
  Startup.loading v' = false /\
  Startup.hasPermission v' = Some (status =? "granted")%string /\
  (In (Startup.GetAssetsAsync "audio" 1000) tr <-> status = "granted") /\
  ((exists title message, In (Startup.Alert title message) tr) <->
   status <> "granted") /\
  Startup.audioAssets v' =
    (if (status =? "granted")%string
     then match media with
          | Some listed => map Startup.toAudioAsset listed
          | None => Startup.audioAssets v
          end
     else Startup.audioAssets v) /\
  Startup.commit (Startup.mountEffect None media) v = v.
Proof.
  cbv zeta. unfold Startup.mountEffect, Startup.loadAudioAssets.
  destruct (String.eqb_spec status "granted") as [Hg|Hg]; cbn [negb].
  - split; [destruct media; reflexivity|].
    split; [destruct media; reflexivity|].
    split; [split; [intros _; exact Hg | intros _; cbn; auto]|].
    split.
    + split; [|intros H; exfalso; apply H; exact Hg].
      intros (title & message & H). exfalso.
      destruct media; cbn in H;
        repeat (destruct H as [H|H]; try discriminate); exact H.
    + split; [destruct media; reflexivity | reflexivity].
  - split; [reflexivity|]. split; [reflexivity|].
    split.
    + split; [|intros H; exfalso; apply Hg; exact H].
      intros H. exfalso. cbn in H.
      repeat (destruct H as [H|H]; try discriminate); exact H.
    + split; [|split; reflexivity].
      split; [intros _; exact Hg|].
      intros _. eexists. eexists. right. left. reflexivity.
Qed.

(** X4: the screen after start-up, before any track is touched: the loading
    screen for good when the permission request rejects, the no-permission
    screen for any status other than granted, and otherwise the library, one
    row per listed asset in the order listed (no row when the enumeration
    failed), without the player. *)
Theorem screen_after_startup
    (status : option string) (media : option (list MediaLibrary.Asset)) :
  render (Startup.commit (Startup.mountEffect status media) Startup.initialVars)
         initialState =
  Returned
    match status with
    | None => LoadingView
    | Some st =>
        if (st =? "granted")%string
        then LibraryView
               (map (fun m => (MediaLibrary.id m, MediaLibrary.filename m))
                    (match media with Some listed => listed | None => [] end))
               None
        else NoPermissionView
    end.
Proof.
  unfold Startup.mountEffect, Startup.loadAudioAssets.
  destruct status as [st|]; [|reflexivity].
  destruct (st =? "granted")%string; [|reflexivity].
  destruct media as [listed|]; [|reflexivity].
  cbn. unfold render. cbn. rewrite rows_of_listed. reflexivity.
Qed.

(** X5: from the library to the engine: after a granted start-up that listed
    [media], pressing the k-th row (the previous session's unload resolving)
    unloads the session the handler has in scope, if any, and then asks the
    engine for exactly the uri of the k-th listed asset, with autoplay; when
    that resolves, the new session, the index k and isPlaying = true are
    installed. *)
Theorem row_press_loads_listed_asset
    (media : list MediaLibrary.Asset) (k : nat) (m : MediaLibrary.Asset)
    (r : State) (e : Replies) :
  nth_error media k = Some m ->
  unloadReply e = true ->
  let tracks :=
    Startup.audioAssets
      (Startup.commit (Startup.mountEffect (Some "granted") (Some media))
                      Startup.initialVars) in
  engineCalls (trace (handler tracks r (rowPress k) e)) =
    (match playbackInstance r with
     | Some old => [UnloadAsync old]
     | None => []
     end) ++ [CreateAsync (MediaLibrary.uri m) true] /\
  (forall (g : Sound) (s : State),
      createReply e = Some g ->
      commit (trace (handler tracks r (rowPress k) e)) s =
      mkState (Some g) true (Z.of_nat k) (position s) (duration s) (isSeeking s)).
Proof.
  intros Hk Hu. cbv zeta.
  change (Startup.audioAssets _) with (map Startup.toAudioAsset media).
  assert (Ha : assetAt (map Startup.toAudioAsset media) (Z.of_nat k) =
               Some (Startup.toAudioAsset m)).
  { rewrite assetAt_of_nat. apply map_nth_error. exact Hk. }
  unfold rowPress, handler.
  unfold playAudio, tryCatch, bind, await, emit, ret, throw, resolved, trace.
  rewrite Hu, Ha. split.
  - destruct (playbackInstance r), (createReply e); reflexivity.
  - intros g s Hg. rewrite Hg. destruct (playbackInstance r); reflexivity.
Qed.

Lemma row_press_loads_listed_asset_witness :
  let media := [MediaLibrary.mkMedia "7" "x.mp3" "file:///x.mp3" 1000;
                MediaLibrary.mkMedia "8" "y.mp3" "file:///y.mp3" 2000] in
  engineCalls (trace (handler (map Startup.toAudioAsset media)
                              (mkState (Some 3%nat) true 0 0 0 false)
                              (rowPress 1) (resolving 4%nat))) =
  [UnloadAsync 3%nat; CreateAsync "file:///y.mp3" true].
Proof.
  cbv zeta.
  apply (proj1 (row_press_loads_listed_asset
                  [MediaLibrary.mkMedia "7" "x.mp3" "file:///x.mp3" 1000;
                   MediaLibrary.mkMedia "8" "y.mp3" "file:///y.mp3" 2000]
                  1%nat (MediaLibrary.mkMedia "8" "y.mp3" "file:///y.mp3" 2000)
                  (mkState (Some 3%nat) true 0 0 0 false) (resolving 4%nat)
                  eq_refl eq_refl)).
Defined.

(** ** Track changes: bounds and rejected calls *)

(** X6: createAsync is guarded: [playAudio] calls it only with autoplay, only on
    the uri of the asset at an index inside the list, only after the unload
    of the session in scope (if any) has resolved, and at most once. *)
Theorem createAsync_only_inside_list_after_unload
    (tracks : list AudioAsset) (r : State) (index : Z) (e : Replies)
    (source : string) (shouldPlay : bool) :
  In (CreateAsync source shouldPlay)
     (engineCalls (trace (playAudio tracks r index e))) ->
  shouldPlay = true /\
  0 <= index < len tracks /\
  (exists asset, assetAt tracks index = Some asset /\ source = uri asset) /\
  (playbackInstance r <> None -> unloadReply e = true) /\
  engineCalls (trace (playAudio tracks r index e)) =
    (match playbackInstance r with
     | Some old => [UnloadAsync old]
     | None => []
     end) ++ [CreateAsync source true].
Proof.
  playAudio_cases r e index; intros H;
    repeat (destruct H as [H|H]; try discriminate); try contradiction;
    injection H as <- <-;
    (split; [reflexivity|]);
    (split; [eapply assetAt_range; eassumption|]);
    (split; [eauto|]);
    (split; [congruence || reflexivity | reflexivity]).
Qed.

Lemma createAsync_only_inside_list_after_unload_witness :
  0 <= 2 < len threeTracks /\
  engineCalls (trace (playAudio threeTracks initialState 2 loadRejected)) =
  [CreateAsync "file:///music/c.mp3" true].
Proof.
  destruct (createAsync_only_inside_list_after_unload threeTracks initialState 2
              loadRejected "file:///music/c.mp3" true)
    as (_ & Hrange & _ & _ & Hcalls).
  - cbn. left. reflexivity.
  - split; [exact Hrange | exact Hcalls].
Defined.

Lemma assetAt_outside (tracks : list AudioAsset) (i : Z) :
  ~ (0 <= i < len tracks) -> assetAt tracks i = None.
Proof.
  intros Hout. destruct (assetAt tracks i) as [a|] eqn:E; [|reflexivity].
  exfalso. apply Hout. eapply assetAt_range. exact E.
Qed.

(** X7: selecting an index outside the list (negative, or the length and
    beyond): the session in scope, if any, is still unloaded, and the session
    variable cleared when that resolves; then the undefined asset throws, so
    createAsync is never called; the error is logged as the last thing, and
    the index, isPlaying, the position and the rest keep their values. *)
Theorem select_outside_list_creates_nothing
    (tracks : list AudioAsset) (r s : State) (index : Z) (e : Replies) :
  ~ (0 <= index < len tracks) ->
  let tr := trace (playAudio tracks r index e) in
  engineCalls tr =
    match playbackInstance r with
    | Some old => [UnloadAsync old]
    | None => []
    end /\
  (exists before, tr = before ++ [ConsoleError "Error playing audio:"]) /\
  snd (playAudio tracks r index e) = Returned tt /\
  commit tr s =
    match playbackInstance r with
    | Some old =>
        if unloadReply e
        then mkState None (isPlaying s) (currentTrackIndex s)
                     (position s) (duration s) (isSeeking s)
        else s
    | None => s
    end.
Proof.
  intros Hout. cbv zeta. pose proof (assetAt_outside tracks index Hout) as Ha.
  unfold playAudio, tryCatch, bind, await, emit, ret, throw, resolved, trace.
  rewrite Ha.
  destruct (playbackInstance r) as [old|], (unloadReply e); cbn;
    repeat split; try reflexivity;
    try (destruct s; reflexivity);
    match goal with
    | |- exists before, ?l = _ => exists (removelast l); reflexivity
    end.
Qed.

Lemma select_outside_list_creates_nothing_witness :
  engineCalls (trace (playAudio threeTracks (mkState (Some 1%nat) true 0 0 0 false)
                                3 (resolving 2%nat))) = [UnloadAsync 1%nat] /\
  commit (trace (playAudio threeTracks (mkState (Some 1%nat) true 0 0 0 false)
                           3 (resolving 2%nat)))
         (mkState (Some 1%nat) true 0 0 0 false) =
  mkState None true 0 0 0 false.
Proof.
  assert (Hout : ~ (0 <= 3 < len threeTracks)) by (unfold len; cbn; lia).
  destruct (select_outside_list_creates_nothing threeTracks
              (mkState (Some 1%nat) true 0 0 0 false)
              (mkState (Some 1%nat) true 0 0 0 false) 3 (resolving 2%nat) Hout)
    as (Hcalls & _ & _ & Hstate).
  split; [exact Hcalls | exact Hstate].
Defined.

(** X8: a rejected unload abandons the track change: whatever the index and
    whatever createAsync would have answered, the only engine call is the
    unload, the error is logged, the handler returns, and no state variable
    changes (the old session stays referenced). *)
Theorem rejected_unload_abandons_track_change
    (tracks : list AudioAsset) (r s : State) (index : Z) (old : Sound)
    (created : option Sound) (commands : bool) :
  playbackInstance r = Some old ->
  let e := mkReplies false created commands in
  playAudio tracks r index e =
    ([Engine (UnloadAsync old); ConsoleError "Error playing audio:"], Returned tt) /\
  commit (trace (playAudio tracks r index e)) s = s.
Proof.
  intros Hr. cbv zeta.
  unfold playAudio, tryCatch, bind, await, emit, ret, throw, resolved, trace.
  rewrite Hr. cbn. split; reflexivity.
Qed.

Lemma rejected_unload_abandons_track_change_witness :
  commit (trace (playAudio threeTracks (mkState (Some 1%nat) true 0 0 0 false) 1
                           (mkReplies false (Some 2%nat) true)))
         (mkState (Some 1%nat) true 0 0 0 false) =
  mkState (Some 1%nat) true 0 0 0 false.
Proof.
  apply (proj2 (rejected_unload_abandons_track_change threeTracks
                  (mkState (Some 1%nat) true 0 0 0 false)
                  (mkState (Some 1%nat) true 0 0 0 false) 1 1%nat (Some 2%nat) true
                  eq_refl)).
Defined.

(** ** Next and previous, the other way round *)

Lemma iter_prevIndex_mod (tracks : list AudioAsset) (k : nat) (i : Z) :
  0 <= i < len tracks ->
  Nat.iter k (prevIndex tracks) i = (i - Z.of_nat k) mod len tracks.
Proof.
  intros Hi. induction k as [|k IH].
  - cbn. rewrite Z.sub_0_r, Z.mod_small by lia. reflexivity.
  - change (Nat.iter (S k) (prevIndex tracks) i)
      with (prevIndex tracks (Nat.iter k (prevIndex tracks) i)).
    rewrite IH.
    pose proof (Z.mod_pos_bound (i - Z.of_nat k) (len tracks)) as Hb.
    rewrite prevIndex_mod by lia.
    replace ((i - Z.of_nat k) mod len tracks - 1 + len tracks)
      with ((i - Z.of_nat k) mod len tracks - 1 + 1 * len tracks) by lia.
    rewrite Z.mod_add by lia.
    rewrite Zminus_mod_idemp_l. f_equal. lia.
Qed.

(** X9: for every non-empty track list and every index i into it, next undoes
    previous (next(previous(i)) = i, on the index computation and on the
    controller when the engine calls resolve), and previous applied
    len(tracks) times returns to i. *)
Theorem next_inverts_previous_on_indices
    (tracks : list AudioAsset) (i : Z) :
  tracks <> [] ->
  0 <= i < len tracks ->
  nextIndex tracks (prevIndex tracks i) = i /\
  Nat.iter (List.length tracks) (prevIndex tracks) i = i /\
  (forall (s : State) (e1 e2 : Replies),
      currentTrackIndex s = i -> loads e1 -> loads e2 ->
      currentTrackIndex (run tracks s [(Previous, e1); (Next, e2)]) = i).
Proof.
  intros Hne Hi. pose proof (len_pos tracks Hne) as Hpos.
  assert (Hinv : nextIndex tracks (prevIndex tracks i) = i).
  { unfold prevIndex, nextIndex. cbv zeta.
    destruct (Z.ltb_spec (i - 1) 0) as [Hneg|Hnn].
    - destruct (Z.geb_spec (len tracks - 1 + 1) (len tracks)); lia.
    - destruct (Z.geb_spec (i - 1 + 1) (len tracks)); lia. }
  assert (Hp : 0 <= prevIndex tracks i < len tracks).
  { rewrite prevIndex_mod by lia. apply Z.mod_pos_bound. lia. }
  split; [exact Hinv|]. split.
  - rewrite iter_prevIndex_mod by assumption. fold (len tracks).
    replace (i - len tracks) with (i + (-1) * len tracks) by lia.
    rewrite Z.mod_add by lia. apply Z.mod_small. assumption.
  - intros s e1 e2 Hs He1 He2. cbn [run fold_left fst snd].
    assert (Hprev : currentTrackIndex (step tracks s Previous e1) =
                    prevIndex tracks i).
    { rewrite step_Previous by (assumption || lia). rewrite Hs. reflexivity. }
    rewrite step_Next; [rewrite Hprev; exact Hinv| |assumption..].
    rewrite Hprev. lia.
Qed.

Lemma next_inverts_previous_on_indices_witness :
  nextIndex threeTracks (prevIndex threeTracks 0) = 0 /\
  Nat.iter (List.length threeTracks) (prevIndex threeTracks) 0 = 0 /\
  currentTrackIndex
    (run threeTracks (mkState (Some 4%nat) true 0 0 0 false)
         [(Previous, resolving 5%nat); (Next, resolving 6%nat)]) = 0.
Proof.
  assert (Hne : threeTracks <> []) by discriminate.
  assert (Hi : 0 <= 0 < len threeTracks) by (unfold len; cbn; lia).
  destruct (next_inverts_previous_on_indices threeTracks 0 Hne Hi)
    as (H1 & H2 & H3).
  split; [exact H1|]. split; [exact H2|].
  apply H3; [reflexivity| |]; split; (reflexivity || discriminate).
Defined.

(** ** Whatever the closures hold *)

(** The effects that keep the index -1 or inside the list. *)
Lemma commit_keeps_indexInList (tracks : list AudioAsset) (tr : list Effect) :
  Forall (fun eff => match eff with
                     | SetCurrentTrackIndex i => 0 <= i < len tracks
                     | _ => True
                     end) tr ->
  forall s, indexInList tracks s -> indexInList tracks (commit tr s).
Proof.
  induction 1 as [|eff tr Heff _ IH]; intros s Hs; [exact Hs|].
  cbn [commit fold_left]. apply IH.
  destruct eff; try exact Hs. right. exact Heff.
Qed.

Lemma playAudio_index_effects (tracks : list AudioAsset) (r : State) (i : Z)
    (e : Replies) :
  Forall (fun eff => match eff with
                     | SetCurrentTrackIndex i => 0 <= i < len tracks
                     | _ => True
                     end) (trace (playAudio tracks r i e)).
Proof.
  playAudio_cases r e i; repeat constructor;
    eapply assetAt_range; eassumption.
Qed.

Lemma handler_index_effects (tracks : list AudioAsset) (r : State) (a : Action)
    (e : Replies) :
  Forall (fun eff => match eff with
                     | SetCurrentTrackIndex i => 0 <= i < len tracks
                     | _ => True
                     end) (trace (handler tracks r a e)).
Proof.
  destruct a as [i| | | |v|v|origin status]; cbn [handler].
  - apply playAudio_index_effects.
  - unfold handlePlayPause, await, ret, resolved, trace.
    destruct (playbackInstance r), (isPlaying r); repeat constructor.
  - unfold handleNext. destruct (len tracks =? 0); [constructor|].
    apply playAudio_index_effects.
  - unfold handlePrevious. destruct (len tracks =? 0); [constructor|].
    apply playAudio_index_effects.
  - repeat constructor.
  - unfold handleSlidingComplete, bind, await, emit, ret, resolved, trace.
    destruct (playbackInstance r), (isPlaying r), (commandReply e);
      repeat constructor.
  - destruct status as [error|p d b fin]; cbn [onPlaybackStatusUpdate].
    + destruct (truthy error); repeat constructor.
    + unfold bind, emit, ret, trace.
      destruct (isSeeking r), fin; cbn [negb fst snd app];
        repeat (apply Forall_cons; [exact I|]);
        try constructor;
        unfold handleNext; destruct (len tracks =? 0);
        try constructor; apply playAudio_index_effects.
Qed.

Lemma handler_keeps_indexInList (tracks : list AudioAsset) (r s : State)
    (a : Action) (e : Replies) :
  indexInList tracks r -> indexInList tracks s ->
  indexInList tracks (commit (trace (handler tracks r a e)) s).
Proof.
  intros _ Hs. apply commit_keeps_indexInList; [|exact Hs].
  apply handler_index_effects.
Qed.

(** X10: rendering never fails on a missing track: along every sequence of
    operations from the initial state over a fixed track list, each handler
    reading the values of any earlier render, every state has
    currentTrackIndex either -1 or inside the list; so the component's
    render, which reads the file name of the asset at that index whenever it
    is not -1, always returns a view. *)
Theorem render_always_finds_the_track
    (tracks : list AudioAsset) (ops : list (nat * Action * Replies))
    (v : Startup.Vars) (s : State) :
  Startup.audioAssets v = tracks ->
  In s (runIn tracks [initialState] ops) ->
  indexInList tracks s /\
  (currentTrackIndex s <> -1 ->
   exists asset, assetAt tracks (currentTrackIndex s) = Some asset) /\
  exists view, render v s = Returned view.
Proof.
  intros Hv Hin.
  assert (Hall : Forall (indexInList tracks) (runIn tracks [initialState] ops)).
  { apply (runIn_invariant tracks (indexInList tracks)).
    - apply handler_keeps_indexInList.
    - discriminate.
    - repeat constructor. }
  rewrite Forall_forall in Hall. pose proof (Hall s Hin) as Hs.
  assert (Hasset : currentTrackIndex s <> -1 ->
                   exists asset, assetAt tracks (currentTrackIndex s) = Some asset).
  { intros Hsel. destruct Hs as [Hs|Hs]; [congruence|].
    apply assetAt_defined. exact Hs. }
  split; [exact Hs|]. split; [exact Hasset|].
  unfold render. rewrite Hv.
  destruct (Startup.loading v); [eauto|].
  destruct (Startup.hasPermission v) as [[|]|]; eauto.
  destruct (Z.eqb_spec (currentTrackIndex s) (-1)) as [Heq|Hneq]; cbn [negb];
    [eauto|].
  destruct (Hasset Hneq) as [asset Ha]. rewrite Ha. eauto.
Qed.

Lemma render_always_finds_the_track_witness :
  let ops := [(0%nat, SelectTrack 2, resolving 1%nat);
              (1%nat, EngineStatus 1%nat (Loaded 9000 (Some 9000) false true),
               resolving 2%nat)] in
  exists view,
    render (Startup.mkVars (Some true) threeTracks false)
           (current (runIn threeTracks [initialState] ops)) = Returned view.
Proof.
  cbv zeta.
  apply (render_always_finds_the_track threeTracks
           [(0%nat, SelectTrack 2, resolving 1%nat);
            (1%nat, EngineStatus 1%nat (Loaded 9000 (Some 9000) false true),
             resolving 2%nat)]
           (Startup.mkVars (Some true) threeTracks false)).
  - reflexivity.
  - left. reflexivity.
Defined.

(** X11: in every state such a run reaches over a non-empty list, next and
    previous compute an index inside the list, and when the engine calls
    resolve that index is installed: neither ever takes the undefined-asset
    path. *)
Theorem next_and_previous_always_find_a_track
    (tracks : list AudioAsset) (ops : list (nat * Action * Replies))
    (r : State) :
  tracks <> [] ->
  In r (runIn tracks [initialState] ops) ->
  0 <= nextIndex tracks (currentTrackIndex r) < len tracks /\
  0 <= prevIndex tracks (currentTrackIndex r) < len tracks /\
  (forall (s : State) (e : Replies) (g : Sound),
      unloadReply e = true -> createReply e = Some g ->
      commit (trace (handleNext tracks r e)) s =
        mkState (Some g) true (nextIndex tracks (currentTrackIndex r))
                (position s) (duration s) (isSeeking s) /\
      commit (trace (handlePrevious tracks r e)) s =
        mkState (Some g) true (prevIndex tracks (currentTrackIndex r))
                (position s) (duration s) (isSeeking s)).
Proof.
  intros Hne Hin. pose proof (len_pos tracks Hne) as Hpos.
  assert (Hall : Forall (indexInList tracks) (runIn tracks [initialState] ops)).
  { apply (runIn_invariant tracks (indexInList tracks)).
    - apply handler_keeps_indexInList.
    - discriminate.
    - repeat constructor. }
  rewrite Forall_forall in Hall. pose proof (Hall r Hin) as Hr.
  assert (Hcur : -1 <= currentTrackIndex r < len tracks)
    by (destruct Hr as [Hr|Hr]; lia).
  assert (Hn : 0 <= nextIndex tracks (currentTrackIndex r) < len tracks).
  { rewrite nextIndex_mod by assumption. apply Z.mod_pos_bound. lia. }
  assert (Hp : 0 <= prevIndex tracks (currentTrackIndex r) < len tracks).
  { unfold prevIndex. cbv zeta.
    destruct (Z.ltb_spec (currentTrackIndex r - 1) 0); lia. }
  split; [exact Hn|]. split; [exact Hp|].
  intros s e g Hu Hc.
  assert (Hz : (len tracks =? 0) = false) by (apply Z.eqb_neq; lia).
  unfold handleNext, handlePrevious. rewrite Hz.
  split; apply playAudio_loads; assumption.
Qed.

Lemma next_and_previous_always_find_a_track_witness :
  0 <= nextIndex threeTracks
         (currentTrackIndex
            (current (runIn threeTracks [initialState]
                            [(0%nat, SelectTrack 2, resolving 1%nat)])))
    < len threeTracks.
Proof.
  assert (Hne : threeTracks <> []) by discriminate.
  apply (proj1 (next_and_previous_always_find_a_track threeTracks
                  [(0%nat, SelectTrack 2, resolving 1%nat)]
                  (current (runIn threeTracks [initialState]
                                  [(0%nat, SelectTrack 2, resolving 1%nat)]))
                  Hne (or_introl eq_refl))).
Defined.

(** ** An empty library *)

Lemma handler_on_empty_list (r s : State) (a : Action) (e : Replies) :
  playbackInstance r = None ->
  engineCalls (trace (handler [] r a e)) = [] /\
  (playbackInstance s = None /\ currentTrackIndex s = -1 ->
   playbackInstance (commit (trace (handler [] r a e)) s) = None /\
   currentTrackIndex (commit (trace (handler [] r a e)) s) = -1).
Proof.
  intros Hr.
  assert (Hasset : forall i, assetAt [] i = None).
  { intros i. unfold assetAt. destruct (i <? 0); [reflexivity|].
    destruct (Z.to_nat i); reflexivity. }
  assert (Hplay : forall i, trace (playAudio [] r i e) =
                            [ConsoleError "Error playing audio:"]).
  { intros i.
    unfold playAudio, tryCatch, bind, await, emit, ret, throw, resolved, trace.
    rewrite Hr, Hasset. reflexivity. }
  destruct a as [i| | | |v|v|origin status]; cbn [handler].
  - rewrite Hplay. split; [reflexivity|]. intros H. exact H.
  - unfold handlePlayPause. rewrite Hr. split; [reflexivity|]. intros H. exact H.
  - unfold handleNext. split; [reflexivity|]. intros H. exact H.
  - unfold handlePrevious. split; [reflexivity|]. intros H. exact H.
  - split; [reflexivity|]. intros H. exact H.
  - unfold handleSlidingComplete. rewrite Hr. split; [reflexivity|].
    intros H. exact H.
  - destruct status as [error|p d b fin]; cbn [onPlaybackStatusUpdate].
    + destruct (truthy error); (split; [reflexivity|]); intros H; exact H.
    + unfold handleNext, bind, emit, ret, trace.
      destruct (isSeeking r), fin; (split; [reflexivity|]); intros H; exact H.
Qed.

Lemma empty_list_run (ops : list (nat * Action * Replies)) (hist : list State) :
  hist <> [] ->
  Forall (fun s => playbackInstance s = None /\ currentTrackIndex s = -1) hist ->
  callsIn [] hist ops = [] /\
  Forall (fun s => playbackInstance s = None /\ currentTrackIndex s = -1)
         (runIn [] hist ops).
Proof.
  revert hist. induction ops as [|op ops IH]; intros hist Hne HP.
  - split; [reflexivity | exact HP].
  - pose proof HP as HP'. rewrite Forall_forall in HP'.
    destruct (HP' _ (inScope_in hist (fst (fst op)) Hne)) as [Hr _].
    destruct (handler_on_empty_list (inScope hist (fst (fst op))) (current hist)
                (snd (fst op)) (snd op) Hr) as [Hcalls Hkeep].
    destruct (IH (stepIn [] hist op)) as [IHcalls IHP].
    + discriminate.
    + constructor; [|exact HP]. apply Hkeep. apply HP'. apply current_in. exact Hne.
    + split.
      * cbn [callsIn]. rewrite Hcalls, IHcalls. reflexivity.
      * exact IHP.
Qed.

(** X12: with an empty track list nothing ever reaches the engine: along every
    sequence of operations from the initial state (row presses at any index,
    next, previous, play/pause, seeks, status events, with any engine answers
    and any closures) no engine call is issued at all, no session is ever
    installed and currentTrackIndex stays -1. *)
Theorem empty_list_never_contacts_engine
    (ops : list (nat * Action * Replies)) :
  callsIn [] [initialState] ops = [] /\
  Forall (fun s => playbackInstance s = None /\ currentTrackIndex s = -1)
         (runIn [] [initialState] ops).
Proof.
  apply empty_list_run; [discriminate|]. repeat constructor.
Qed.

(** ** Status events: errors and finishes *)

(** X13: a status event that is not loaded changes no state variable and issues
    no engine call, whether or not it carries an error: the session, the
    index and isPlaying stay as they were.  It is logged exactly when its
    error is present and not the empty string. *)
Theorem unloaded_status_event_changes_nothing
    (tracks : list AudioAsset) (r s : State) (error : option string)
    (e : Replies) :
  let tr := trace (onPlaybackStatusUpdate tracks r (NotLoaded error) e) in
  commit tr s = s /\
  engineCalls tr = [] /\
  (tr = [ConsoleError "Playback error:"] \/ tr = []) /\
  (tr = [ConsoleError "Playback error:"] <->
   exists msg, error = Some msg /\ msg <> "").
Proof.
  cbv zeta. cbn [onPlaybackStatusUpdate].
  destruct error as [[|c msg]|]; cbn; repeat split; auto;
    try discriminate;
    try (intros (m & H & Hm); try discriminate; injection H as <-; congruence).
  intros _. eexists. split; [reflexivity|discriminate].
Qed.

(** X14: the auto-advance reads the index its callback has in scope: a loaded
    event with didJustFinish, over a non-empty list, with the engine calls
    resolving, installs the new session and the index next to the index in
    scope (0 when that is the last track), and leaves isPlaying true whatever
    flag the event carried; position and duration are taken from the event
    unless the callback sees isSeeking. *)
Theorem finish_event_advances_from_index_in_scope
    (tracks : list AudioAsset) (r s : State) (p : Z) (d : option Z) (b : bool)
    (e : Replies) (g : Sound) :
  tracks <> [] ->
  -1 <= currentTrackIndex r < len tracks ->
  unloadReply e = true ->
  createReply e = Some g ->
  commit (trace (onPlaybackStatusUpdate tracks r (Loaded p d b true) e)) s =
    mkState (Some g) true (nextIndex tracks (currentTrackIndex r))
            (if isSeeking r then position s else p)
            (if isSeeking r then duration s
             else match d with Some x => x | None => 0 end)
            (isSeeking s) /\
  (currentTrackIndex r = len tracks - 1 ->
   nextIndex tracks (currentTrackIndex r) = 0).
Proof.
  intros Hne Hcur Hu Hc. pose proof (len_pos tracks Hne) as Hpos.
  assert (Hz : (len tracks =? 0) = false) by (apply Z.eqb_neq; lia).
  assert (Hn : 0 <= nextIndex tracks (currentTrackIndex r) < len tracks).
  { rewrite nextIndex_mod by assumption. apply Z.mod_pos_bound. lia. }
  split.
  - cbn [onPlaybackStatusUpdate]. unfold handleNext. rewrite Hz.
    assert (Hload : forall s0,
              commit (fst (playAudio tracks r (nextIndex tracks (currentTrackIndex r)) e))
                     s0 =
              mkState (Some g) true (nextIndex tracks (currentTrackIndex r))
                      (position s0) (duration s0) (isSeeking s0)).
    { intros s0. apply (playAudio_loads tracks r s0 _ e g); assumption. }
    unfold bind, emit, ret, trace.
    destruct (isSeeking r); cbn [negb fst snd app].
    + change (SetIsPlaying b :: ?l) with ([SetIsPlaying b] ++ l).
      rewrite commit_app, Hload. reflexivity.
    + change (?x :: ?y :: ?z :: ?l) with ([x; y; z] ++ l).
      rewrite commit_app, Hload. reflexivity.
  - intros Hlast. rewrite Hlast. unfold nextIndex. cbv zeta.
    destruct (Z.geb_spec (len tracks - 1 + 1) (len tracks)); [reflexivity|lia].
Qed.

Lemma finish_event_advances_from_index_in_scope_witness :
  commit (trace (onPlaybackStatusUpdate threeTracks
                   (mkState (Some 1%nat) true 2 0 0 false)
                   (Loaded 9000 (Some 9000) false true) (resolving 2%nat)))
         (mkState (Some 1%nat) true 2 8000 9000 false) =
  mkState (Some 2%nat) true 0 9000 9000 false.
Proof.
  assert (Hne : threeTracks <> []) by discriminate.
  assert (Hcur : -1 <= 2 < len threeTracks) by (unfold len; cbn; lia).
  apply (proj1 (finish_event_advances_from_index_in_scope threeTracks
                  (mkState (Some 1%nat) true 2 0 0 false)
                  (mkState (Some 1%nat) true 2 8000 9000 false)
                  9000 (Some 9000) false (resolving 2%nat) 2%nat
                  Hne Hcur eq_refl eq_refl)).
Defined.

(** ** Seeks that fail and the play/pause button *)

(** X15: commitSeek clears isSeeking, and changes nothing else, when there is no
    session in scope or the engine's seek call resolves.  When the call
    rejects nothing catches it: the handler throws after that one call and
    isSeeking is left as it was. *)
Theorem commit_seek_clears_seeking_unless_rejected
    (r s : State) (value : Z) (e : Replies) :
  let m := handleSlidingComplete r value e in
  (playbackInstance r = None \/ commandReply e = true ->
   snd m = Returned tt /\
   commit (trace m) s =
     mkState (playbackInstance s) (isPlaying s) (currentTrackIndex s)
             (position s) (duration s) false) /\
  (playbackInstance r <> None -> commandReply e = false ->
   snd m = Thrown "rejected" /\
   List.length (engineCalls (trace m)) = 1%nat /\
   commit (trace m) s = s).
Proof.
  cbv zeta. unfold handleSlidingComplete, bind, await, emit, ret, resolved, trace.
  split.
  - intros [Hr|He].
    + rewrite Hr. split; reflexivity.
    + rewrite He. destruct (playbackInstance r), (isPlaying r); split; reflexivity.
  - intros Hr He. rewrite He.
    destruct (playbackInstance r) as [g|]; [|congruence].
    destruct (isPlaying r); repeat split; reflexivity.
Qed.

Lemma commit_seek_clears_seeking_unless_rejected_witness :
  isSeeking (commit (trace (handleSlidingComplete
                              (mkState (Some 1%nat) true 0 1500 9000 true) 4000
                              (resolving 2%nat)))
                    (mkState (Some 1%nat) true 0 1500 9000 true)) = false /\
  commit (trace (handleSlidingComplete
                   (mkState (Some 1%nat) true 0 1500 9000 true) 4000
                   (mkReplies true None false)))
         (mkState (Some 1%nat) true 0 1500 9000 true) =
  mkState (Some 1%nat) true 0 1500 9000 true.
Proof.
  split.
  - rewrite (proj2 (proj1 (commit_seek_clears_seeking_unless_rejected
                             (mkState (Some 1%nat) true 0 1500 9000 true)
                             (mkState (Some 1%nat) true 0 1500 9000 true) 4000
                             (resolving 2%nat)) (or_intror eq_refl))).
    reflexivity.
  - apply (proj2 (commit_seek_clears_seeking_unless_rejected
                    (mkState (Some 1%nat) true 0 1500 9000 true)
                    (mkState (Some 1%nat) true 0 1500 9000 true) 4000
                    (mkReplies true None false))).
    + discriminate.
    + reflexivity.
Defined.

(** X16: the play/pause button does what its label says: whenever the rendered
    player belongs to a state with a session, the label is "Pause" and the
    press issues pauseAsync on that session, or the label is "Play" and the
    press issues playAsync on it. *)
Theorem play_pause_label_matches_command
    (v : Startup.Vars) (s : State) (e : Replies) (g : Sound)
    (rows : list (string * string)) (p : Player) :
  render v s = Returned (LibraryView rows (Some p)) ->
  playbackInstance s = Some g ->
  (playPauseLabel p = "Pause" /\
   engineCalls (trace (handlePlayPause s e)) = [PauseAsync g]) \/
  (playPauseLabel p = "Play" /\
   engineCalls (trace (handlePlayPause s e)) = [PlayAsync g]).
Proof.
  unfold render. intros Hview Hs.
  destruct (Startup.loading v); [discriminate|].
  destruct (Startup.hasPermission v) as [[|]|]; try discriminate.
  destruct (negb (currentTrackIndex s =? -1)); [|discriminate].
  destruct (assetAt (Startup.audioAssets v) (currentTrackIndex s)); [|discriminate].
  injection Hview as _ <-. cbn [playPauseLabel].
  unfold handlePlayPause, await, resolved, trace. rewrite Hs.
  destruct (isPlaying s); [left|right]; split; reflexivity.
Qed.

Lemma play_pause_label_matches_command_witness :
  let s := mkState (Some 1%nat) false 1 1500 9000 false in
  let v := Startup.mkVars (Some true) threeTracks false in
  (exists rows p, render v s = Returned (LibraryView rows (Some p)) /\
                  playPauseLabel p = "Play") /\
  engineCalls (trace (handlePlayPause s (resolving 2%nat))) = [PlayAsync 1%nat].
Proof.
  cbv zeta. split.
  - eexists. eexists. split; reflexivity.
  - destruct (play_pause_label_matches_command
                (Startup.mkVars (Some true) threeTracks false)
                (mkState (Some 1%nat) false 1 1500 9000 false)
                (resolving 2%nat) 1%nat _ _ eq_refl eq_refl)
      as [[Hlabel _]|[_ Hcalls]].
    + discriminate Hlabel.
    + exact Hcalls.
Defined.
